(** * py_shell_creator: the schema compiler and the function descriptor

    A shallow embedding of [src/py_shell_creator/api.py]:
    [create_schema_object_from_annotation], [ShellFunctionDescriptor],
    [Shell], and the two dispatch paths ([CommandLineApp.exec] and the
    Flask end point of [WebService]).

    Python values are modelled by [value]; a Python [dict] is an
    association list in insertion order whose keys are strings; a raised
    exception is the [Raise] outcome of [result]. *)

From Stdlib Require Import List String ZArith Bool Lia.
Import ListNotations.
Open Scope string_scope.
Open Scope list_scope.

Set Implicit Arguments.
Set Warnings "-register-all".

(** ** Python values *)

Module Py.

(** The JSON-shaped values that can occur in a schema object, in the
    metadata of [Annotated], among the arguments of [Literal], as a default
    value or as a request payload. *)
Inductive value : Type :=
| VNone
| VBool (b : bool)
| VInt (z : Z)
| VStr (s : string)
| VList (l : list value)
| VDict (d : list (string * value)).

(** The exceptions the modelled code can raise. *)
Inductive exn : Type :=
| ValueError (msg : string)
| KeyError (key : string)
| AttributeError (attr : string)
| TypeError (msg : string)
| IndexError (msg : string)
| ValidationError (msg : string)
| ArgumentTypeError (msg : string)
| ArgumentError (msg : string)
| NotFound (url : string).

(** [str(e)] *)
Definition message (e : exn) : string :=
  match e with
  | ValueError m | KeyError m | AttributeError m | TypeError m
  | IndexError m | ValidationError m | ArgumentTypeError m
  | ArgumentError m | NotFound m => m
  end.

Inductive result (A : Type) : Type :=
| Ok (a : A)
| Raise (e : exn).

Arguments Ok {A} a.
Arguments Raise {A} e.

Definition bind {A B : Type} (r : result A) (k : A -> result B) : result B :=
  match r with
  | Ok a => k a
  | Raise e => Raise e
  end.

(** A Python [dict] with string keys, in insertion order. *)
Definition pydict (V : Type) : Type := list (string * V).

Definition dict : Type := pydict value.

Section Dict.

Variable V : Type.

(** [key in d] *)
Fixpoint contains (d : pydict V) (key : string) : bool :=
  match d with
  | [] => false
  | (k, _) :: d' => if String.eqb k key then true else contains d' key
  end.

(** [d[key]], which raises [KeyError] when the key is absent. *)
Fixpoint getitem (d : pydict V) (key : string) : result V :=
  match d with
  | [] => Raise (KeyError key)
  | (k, v) :: d' => if String.eqb k key then Ok v else getitem d' key
  end.

(** [d[key] = v]: an existing key keeps its position, a new key goes last. *)
Fixpoint setitem (d : pydict V) (key : string) (v : V) : pydict V :=
  match d with
  | [] => [(key, v)]
  | (k, w) :: d' =>
      if String.eqb k key then (k, v) :: d' else (k, w) :: setitem d' key v
  end.

(** [d.keys()] *)
Definition keys (d : pydict V) : list string := map fst d.

End Dict.

(** [bool(v)] *)
Definition truthy (v : value) : bool :=
  match v with
  | VNone => false
  | VBool b => b
  | VInt z => negb (Z.eqb z 0)
  | VStr s => negb (String.eqb s "")
  | VList l => match l with [] => false | _ => true end
  | VDict d => match d with [] => false | _ => true end
  end.

(** [len(v)] *)
Definition len (v : value) : result nat :=
  match v with
  | VStr s => Ok (String.length s)
  | VList l => Ok (List.length l)
  | VDict d => Ok (List.length d)
  | _ => Raise (TypeError "object has no len()")
  end.

(** [v[0]] *)
Definition index0 (v : value) : result value :=
  match v with
  | VStr (String c _) => Ok (VStr (String c ""))
  | VStr EmptyString => Raise (IndexError "string index out of range")
  | VList (x :: _) => Ok x
  | VList [] => Raise (IndexError "list index out of range")
  | VDict _ => Raise (KeyError "0")
  | _ => Raise (TypeError "object is not subscriptable")
  end.

(** [v.append(x)] *)
Definition append (v x : value) : result value :=
  match v with
  | VList l => Ok (VList (l ++ [x]))
  | _ => Raise (AttributeError "append")
  end.

(** [x == VStr key], the comparison behind [key in lst] and
    [lst.remove(key)] for a string [key]. *)
Definition is_str (key : string) (x : value) : bool :=
  match x with
  | VStr s => String.eqb s key
  | _ => false
  end.

(** [lst.remove(key)] on the elements of a list: the first equal element
    goes. *)
Fixpoint remove_first (key : string) (l : list value) : list value :=
  match l with
  | [] => []
  | x :: l' => if is_str key x then l' else x :: remove_first key l'
  end.

End Py.

Import Py.

Declare Scope py_scope.
Delimit Scope py_scope with py.
Notation "x <- c1 ;; c2" := (bind c1 (fun x => c2))
  (at level 100, c1 at next level, right associativity) : py_scope.
Notation "' pat <- c1 ;; c2" := (bind c1 (fun x => match x with pat => c2 end))
  (at level 100, pat pattern, c1 at next level, right associativity) : py_scope.
Open Scope py_scope.

(** ** Annotations *)

(** The four types of [type_dict_]. *)
Inductive prim : Type := Pstr | Pint | Pfloat | Pbool.

(** What [create_schema_object_from_annotation] can be handed.
    - [TPrim]: [str], [int], [float] or [bool];
    - [TNone]: [type(None)];
    - [TClass]: an object with an [__annotations__] attribute (a [TypedDict]
      or any class), carrying that mapping;
    - [TDict]: a [dict] from names to annotations, as
      [get_args_json_schema] builds one from a signature;
    - [TAnnotated]: [Annotated[base, meta]] with [meta] a [dict];
    - [TLiteral]: [Literal[v1, ..., vn]];
    - [TUnion]: [Union[a1, ..., an]], [Optional[a]] being [Union[a, None]];
    - [TList]: [List[elem]];
    - [TOther]: any other hashable object without [__annotations__]
      ([bytes], [dict], the value [None], ...). *)
Inductive annotation : Type :=
| TPrim (p : prim)
| TNone
| TClass (fields : list (string * annotation))
| TDict (fields : list (string * annotation))
| TAnnotated (base : annotation) (meta : dict)
| TLiteral (args : list value)
| TUnion (args : list annotation)
| TList (elem : annotation)
| TOther (name : string).

Definition schema : Type := dict.

(** ** The schema compiler *)

(** [type_dict_ = { str: "string", int: "number", float: "number",
    bool: "boolean" }] *)
Definition type_dict_ (p : prim) : string :=
  match p with
  | Pstr => "string"
  | Pint => "number"
  | Pfloat => "number"
  | Pbool => "boolean"
  end.

(** [hash(v)] is defined for scalars, not for a [list] or a [dict]. *)
Definition value_hashable (v : value) : bool :=
  match v with
  | VList _ | VDict _ => false
  | _ => true
  end.

(** [x in type_dict_] hashes [x].  A class hashes by identity; a [typing]
    alias hashes its arguments; the metadata of [Annotated] is a [dict],
    which has no hash, and neither has a [dict] itself. *)
Fixpoint hashable (a : annotation) : bool :=
  match a with
  | TPrim _ | TNone | TClass _ | TOther _ => true
  | TLiteral args => forallb value_hashable args
  | TDict _ | TAnnotated _ _ => false
  | TUnion args => forallb hashable args
  | TList elem => hashable elem
  end.

Definition unhashable : exn := TypeError "unhashable type: 'dict'".

Definition unsupported : exn := ValueError "Cannot create schema object".

Section Loops.

(** The recursive call, abstracted so that the three loops are ordinary
    list recursions. *)
Variable rec : annotation -> result (schema * bool).

(** Lines 26-30.  [props] is [schema_object["properties"]], [reqs] is
    [schema_object["required"]]; [required] is the local variable the
    tuple assignment overwrites at every field. *)
Fixpoint record_loop (items : list (string * annotation))
    (props : dict) (reqs : list value) (required : bool)
    : result (dict * list value * bool) :=
  match items with
  | [] => Ok (props, reqs, required)
  | (key, child_annotation) :: items' =>
      '(child, required') <- rec child_annotation ;;
      record_loop items' (setitem props key (VDict child))
        (if required' then reqs ++ [VStr key] else reqs) required'
  end.

(** Lines 58-64. *)
Fixpoint union_loop (args : list annotation)
    (schema_object : schema) (required : bool) : result (schema * bool) :=
  match args with
  | [] => Ok (schema_object, required)
  | arg :: args' =>
      match arg with
      | TNone => union_loop args' schema_object false
      | TPrim p =>
          t <- getitem schema_object "type" ;;
          t' <- append t (VStr (type_dict_ p)) ;;
          union_loop args' (setitem schema_object "type" t') required
      | _ =>
          if hashable arg then
            '(schema_object', required') <- rec arg ;;
            union_loop args' schema_object' required'
          else Raise unhashable
      end
  end.

End Loops.

(** Lines 44-50. *)
Fixpoint annotated_loop (annotation_dict : dict)
    (schema_object : schema) (required : bool) : schema * bool :=
  match annotation_dict with
  | [] => (schema_object, required)
  | (key, v) :: rest =>
      if String.eqb key "required" then
        annotated_loop rest schema_object (truthy v)
      else
        annotated_loop rest (setitem schema_object key v)
          (if String.eqb key "default" then false else required)
  end.

(** Lines 65-66. *)
Definition union_collapse (schema_object : schema) : result schema :=
  t <- getitem schema_object "type" ;;
  n <- len t ;;
  if Nat.eqb n 1 then
    x <- index0 t ;; Ok (setitem schema_object "type" x)
  else Ok schema_object.

Definition object_schema (props : dict) (reqs : list value) : schema :=
  [("type", VStr "object"); ("properties", VDict props);
   ("required", VList reqs)].

(** Lines 14-78.  An object with [__annotations__] is replaced by that
    mapping (lines 18-19) and then treated as a [dict] (lines 21-30); the
    other shapes are told apart by [typing.get_origin] (lines 35-76).  The
    recursion is on the structure of the annotation, so every call ends,
    in a pair or in an exception. *)
Fixpoint create_schema_object_from_annotation (a : annotation)
    : result (schema * bool) :=
  match a with
  | TClass fields | TDict fields =>
      match fields with
      | [] => Ok ([], false)
      | _ :: _ =>
          '(props, reqs, required) <-
            record_loop create_schema_object_from_annotation fields [] [] false ;;
          Ok (object_schema props reqs, required)
      end
  | TAnnotated type_ annotation_dict =>
      '(schema_object, required) <-
        match type_ with
        | TPrim p => Ok ([("type", VStr (type_dict_ p))], false)
        | _ =>
            if hashable type_ then create_schema_object_from_annotation type_
            else Raise unhashable
        end ;;
      Ok (annotated_loop annotation_dict schema_object required)
  | TLiteral args => Ok ([("enum", VList args)], true)
  | TUnion args =>
      '(schema_object, required) <-
        union_loop create_schema_object_from_annotation args
          [("type", VList [])] false ;;
      schema_object' <- union_collapse schema_object ;;
      Ok (schema_object', required)
  | TList elem =>
      '(items, required) <- create_schema_object_from_annotation elem ;;
      Ok ([("type", VStr "array"); ("items", VDict items)], required)
  | TPrim p => Ok ([("type", VStr (type_dict_ p))], true)
  | TNone | TOther _ => Raise unsupported
  end.

(** ** State and exceptions *)

(** Methods that mutate [self] (or the shell, or the log of calls) are
    functions from the state before to an outcome and the state after; a
    raised exception leaves the state as it was at the [raise]. *)
Definition M (S A : Type) : Type := S -> result A * S.

Definition mret {S A : Type} (a : A) : M S A := fun s => (Ok a, s).

Definition mbind {S A B : Type} (m : M S A) (k : A -> M S B) : M S B :=
  fun s =>
    match m s with
    | (Ok a, s') => k a s'
    | (Raise e, s') => (Raise e, s')
    end.

Definition lift {S A : Type} (r : result A) : M S A := fun s => (r, s).

Definition get {S : Type} : M S S := fun s => (Ok s, s).

Definition put {S : Type} (s' : S) : M S unit := fun _ => (Ok tt, s').

(** A mutation that may raise before it takes effect. *)
Definition modify {S : Type} (f : S -> result S) : M S unit :=
  fun s =>
    match f s with
    | Ok s' => (Ok tt, s')
    | Raise e => (Raise e, s)
    end.

Declare Scope st_scope.
Delimit Scope st_scope with st.
Notation "x <- c1 ;; c2" := (mbind c1 (fun x => c2))
  (at level 100, c1 at next level, right associativity) : st_scope.
Notation "c1 ;; c2" := (mbind c1 (fun _ => c2))
  (at level 100, right associativity) : st_scope.

(** ** ShellFunctionDescriptor *)

(** One entry of [inspect.signature(f).parameters]: the annotation and the
    default, [None] standing for [inspect.Parameter.empty]. *)
Record parameter : Type := mk_parameter {
  annotation_ : annotation;
  default : option value
}.

(** A registered callable, as far as the descriptor looks into it: a name
    to tell callables apart, and its signature. *)
Record callable : Type := Callable {
  name_ : string;
  parameters : pydict parameter;
  return_annotation : annotation
}.

Record ShellFunctionDescriptor : Type := Descriptor {
  function : callable;
  description : string;
  validate_schema : bool;
  command_line_function : bool;
  _args_json_schema : option schema;
  _return_value_json_schema : option schema
}.

(** [ShellFunctionDescriptor.__init__] *)
Definition init_descriptor (function : callable) (description : string)
    (validate_schema command_line_function : bool) : ShellFunctionDescriptor :=
  Descriptor function description validate_schema command_line_function
    None None.

Definition set_args_json_schema (self : ShellFunctionDescriptor)
    (s : option schema) : ShellFunctionDescriptor :=
  Descriptor (function self) (description self) (validate_schema self)
    (command_line_function self) s (_return_value_json_schema self).

Definition set_return_value_json_schema (self : ShellFunctionDescriptor)
    (s : option schema) : ShellFunctionDescriptor :=
  Descriptor (function self) (description self) (validate_schema self)
    (command_line_function self) (_args_json_schema self) s.

(** Lines 96-100: [params], the parameter names with their annotations. *)
Definition params_of (signature_parameters : pydict parameter)
    : list (string * annotation) :=
  map (fun np => (fst np, annotation_ (snd np))) signature_parameters.

(** Lines 97-104: [default_values]. *)
Fixpoint default_values_of (signature_parameters : pydict parameter)
    (default_values : dict) : dict :=
  match signature_parameters with
  | [] => default_values
  | (name, p) :: rest =>
      default_values_of rest
        match default p with
        | Some d => setitem default_values name d
        | None => default_values
        end
  end.

Definition as_dict (v : value) : result dict :=
  match v with
  | VDict d => Ok d
  | _ => Raise (TypeError "indices must be integers or object is not subscriptable")
  end.

(** [key in v] for a string [key] *)
Definition contains_str (v : value) (key : string) : result bool :=
  match v with
  | VList l => Ok (existsb (is_str key) l)
  | VDict d => Ok (contains d key)
  | VStr t => Ok match String.index 0 key t with Some _ => true | None => false end
  | _ => Raise (TypeError "argument is not iterable")
  end.

(** [v.remove(key)] *)
Definition remove (v : value) (key : string) : result value :=
  match v with
  | VList l => Ok (VList (remove_first key l))
  | _ => Raise (AttributeError "remove")
  end.

(** Line 107: [schema["properties"][key]["default"] = default_value] *)
Definition inject_default (key : string) (default_value : value)
    (s : schema) : result schema :=
  props <- getitem s "properties" ;;
  props <- as_dict props ;;
  sub <- getitem props key ;;
  sub <- as_dict sub ;;
  Ok (setitem s "properties"
        (VDict (setitem props key (VDict (setitem sub "default" default_value))))).

(** Lines 108-109 *)
Definition drop_required (key : string) (s : schema) : result schema :=
  required <- getitem s "required" ;;
  b <- contains_str required key ;;
  if b then
    required' <- remove required key ;;
    Ok (setitem s "required" required')
  else Ok s.

(** Lines 106-109, on the schema object the cache refers to. *)
Fixpoint patch_defaults (default_values : dict) : M schema unit :=
  match default_values with
  | [] => mret tt
  | (key, default_value) :: rest =>
      (modify (inject_default key default_value) ;;
       modify (drop_required key) ;;
       patch_defaults rest)%st
  end.

Definition get_args_json_schema : M ShellFunctionDescriptor schema :=
  fun self =>
    match _args_json_schema self with
    | Some s => (Ok s, self)
    | None =>
        let signature_parameters := parameters (function self) in
        let params := params_of signature_parameters in
        let default_values := default_values_of signature_parameters [] in
        match create_schema_object_from_annotation (TDict params) with
        | Raise e => (Raise e, self)
        | Ok (s, _) =>
            let '(r, s') := patch_defaults default_values s in
            let self' := set_args_json_schema self (Some s') in
            match r with
            | Ok _ => (Ok s', self')
            | Raise e => (Raise e, self')
            end
        end
    end.

Definition has_args : M ShellFunctionDescriptor bool :=
  (s <- get_args_json_schema ;;
   if contains s "required" then
     s' <- get_args_json_schema ;;
     required <- lift (getitem s' "required") ;;
     n <- lift (len required) ;;
     mret (Nat.ltb 0 n)
   else mret false)%st.

Definition get_return_value_json_schema : M ShellFunctionDescriptor schema :=
  fun self =>
    match _return_value_json_schema self with
    | Some s => (Ok s, self)
    | None =>
        match create_schema_object_from_annotation
                (return_annotation (function self)) with
        | Raise e => (Raise e, self)
        | Ok (s, _) => (Ok s, set_return_value_json_schema self (Some s))
        end
    end.

(** ** Shell *)

Definition Shell : Type := pydict ShellFunctionDescriptor.

Definition register (name : string) (function : callable)
    (description : string) (validate_schema command_line_function : bool)
    : M Shell unit :=
  fun _functions =>
    if contains _functions name then
      (Raise (ValueError "Function already registered"), _functions)
    else
      (Ok tt,
       setitem _functions name
         (init_descriptor function description validate_schema
            command_line_function)).

Definition get_function_descriptor (_functions : Shell) (name : string)
    : result ShellFunctionDescriptor :=
  getitem _functions name.

Definition get_function_names (_functions : Shell) : list string :=
  keys _functions.

Fixpoint get_non_command_line_function_names (_functions : Shell)
    : list string :=
  match _functions with
  | [] => []
  | (key, function_descriptor) :: rest =>
      if command_line_function function_descriptor
      then get_non_command_line_function_names rest
      else key :: get_non_command_line_function_names rest
  end.

(** ** Dispatch *)

(** [function()] is [Call function None], [function( **d )] is
    [Call function (Some d)]. *)
Inductive call : Type :=
| Call (f : callable) (kwargs : option dict).

(** The registry, whose descriptors fill their caches, and the log of the
    calls made to registered callables. *)
Record world : Type := World {
  shell : Shell;
  calls : list call
}.

Section Dispatch.

(** [jsonschema.validate(instance, schema)] *)
Variable jsonschema_validate : value -> schema -> result unit.

(** What a callable returns or raises when called. *)
Variable run : callable -> option dict -> result value.

(** [json.load(open(string))] when the file exists, [json.loads(string)]
    otherwise; [None] when either raises. *)
Variable json_load : string -> option value.

Definition invoke (f : callable) (kwargs : option dict) : M world value :=
  fun w => (run f kwargs, World (shell w) (calls w ++ [Call f kwargs])).

(** A method of the descriptor registered under [name], run on the object
    the shell holds. *)
Definition on_descriptor {A : Type} (name : string)
    (m : M ShellFunctionDescriptor A) : M world A :=
  fun w =>
    match get_function_descriptor (shell w) name with
    | Raise e => (Raise e, w)
    | Ok self =>
        let '(r, self') := m self in
        (r, World (setitem (shell w) name self') (calls w))
    end.

(** The mapping behind [**v] *)
Definition kwargs_of (v : value) : result dict :=
  match v with
  | VDict d => Ok d
  | _ => Raise (TypeError "argument after ** must be a mapping")
  end.

(** Lines 218-221 of [FlaskEndPoint.flask_end_point], for the end point of
    [function_name], whose descriptor is the object the shell holds under
    that name; [json_args] is the decoded request body and the value
    returned is the one handed to [jsonify]. *)
Definition flask_end_point (function_name : string) (json_args : value)
    : M world value :=
  (function_descriptor <- on_descriptor function_name get ;;
   (if validate_schema function_descriptor then
      s <- on_descriptor function_name get_args_json_schema ;;
      lift (jsonschema_validate json_args s)
    else mret tt) ;;
   b <- on_descriptor function_name has_args ;;
   if b then
     kwargs <- lift (kwargs_of json_args) ;;
     invoke (function function_descriptor) (Some kwargs)
   else invoke (function function_descriptor) None)%st.

(** A request to [/function_name]: [flask_app] adds a rule for the names of
    [get_non_command_line_function_names] only. *)
Definition web_request (function_name : string) (json_args : value)
    : M world value :=
  fun w =>
    if existsb (String.eqb function_name)
         (get_non_command_line_function_names (shell w))
    then flask_end_point function_name json_args w
    else (Raise (NotFound function_name), w).

(** The variables [function_descriptor] and [args_json_schema] of
    [CommandLineApp.exec], which every [json_or_json_file] closes over. *)
Definition cells : Type := option (ShellFunctionDescriptor * schema).

(** Lines 152-173.  [parsers] maps a function name to whether its [args]
    argument is positional; the loop rebinds [function_descriptor] and
    [args_json_schema] at every round. *)
Fixpoint build_parsers (function_names : list string)
    (parsers : pydict bool) (c : cells) : M world (pydict bool * cells) :=
  match function_names with
  | [] => mret (parsers, c)
  | function_name :: rest =>
      (function_descriptor <- on_descriptor function_name get ;;
       args_json_schema <- on_descriptor function_name get_args_json_schema ;;
       positional <- on_descriptor function_name has_args ;;
       build_parsers rest (setitem parsers function_name positional)
         (Some (function_descriptor, args_json_schema)))%st
  end.

(** Lines 157-171, called by [parse_args] once the loop is over: the two
    free variables have the values the last round left. *)
Definition json_or_json_file (c : cells) (text : string) : result value :=
  match json_load text with
  | None => Raise (ArgumentTypeError "Not valid json or a not valid json file")
  | Some v =>
      match c with
      | None => Raise (ArgumentError "no function registered")
      | Some (function_descriptor, args_json_schema) =>
          if validate_schema function_descriptor then
            match jsonschema_validate v args_json_schema with
            | Ok _ => Ok v
            | Raise e => Raise (ArgumentTypeError (message e))
            end
          else Ok v
      end
  end.

(** Line 175.  [text] is what the command line gives for [args], in the
    form the parser of [function_name] expects ([args] or [--args]). *)
Definition parse_args (parsers : pydict bool) (c : cells)
    (function_name : string) (text : option string) : result value :=
  match getitem parsers function_name with
  | Raise _ => Raise (ArgumentError "invalid choice")
  | Ok positional =>
      match text with
      | Some t => json_or_json_file c t
      | None =>
          if positional
          then Raise (ArgumentError "the following arguments are required: args")
          else Ok VNone
      end
  end.

(** [CommandLineApp.exec], up to the value it prints. *)
Definition exec (function_name : string) (text : option string)
    : M world value :=
  (w <- get ;;
   pc <- build_parsers (get_function_names (shell w)) [] None ;;
   function_args <- lift (parse_args (fst pc) (snd pc) function_name text) ;;
   function_descriptor <- on_descriptor function_name get ;;
   match function_args with
   | VNone => invoke (function function_descriptor) None
   | _ =>
       kwargs <- lift (kwargs_of function_args) ;;
       invoke (function function_descriptor) (Some kwargs)
   end)%st.

End Dispatch.

(** ** Vocabulary of the statements *)

(** The [required] half of a compilation that returned. *)
Definition verdict (r : result (schema * bool)) : bool :=
  match r with
  | Ok (_, true) => true
  | _ => false
  end.

(** Whether compiling the child of a field returned [required = True]. *)
Definition field_required (rec : annotation -> result (schema * bool))
    (kc : string * annotation) : bool :=
  verdict (rec (snd kc)).

(** The names of those fields, in the order of the record. *)
Definition required_names (rec : annotation -> result (schema * bool))
    (items : list (string * annotation)) : list string :=
  map fst (filter (field_required rec) items).

(** A branch of a union that is a bare primitive or the absence marker. *)
Definition scalar_or_none (a : annotation) : bool :=
  match a with
  | TPrim _ | TNone => true
  | _ => false
  end.

(** The scalar names of the primitive branches, one per branch. *)
Fixpoint prim_names (args : list annotation) : list value :=
  match args with
  | [] => []
  | TPrim p :: args' => VStr (type_dict_ p) :: prim_names args'
  | _ :: args' => prim_names args'
  end.

(** A list of exactly one entry stands for that entry. *)
Definition collapse (l : list value) : value :=
  match l with
  | [x] => x
  | _ => VList l
  end.

(** What [has_args] reads off the arguments schema (line 91). *)
Definition has_required (s : schema) : result bool :=
  if contains s "required" then
    required <- getitem s "required" ;;
    n <- len required ;;
    Ok (Nat.ltb 0 n)
  else Ok false.

(** [{"type": "object", "properties": {"a": {"type": "string"},
    "b": {"type": "number", "default": 0}}, "required": ["a"]}] *)
Definition args_schema_a_b : schema :=
  [("type", VStr "object");
   ("properties",
    VDict [("a", VDict [("type", VStr "string")]);
           ("b", VDict [("type", VStr "number"); ("default", VInt 0)])]);
   ("required", VList [VStr "a"])].

(** [def add(x: int, y: int) -> int] *)
Definition add : callable :=
  Callable "add"
    [("x", mk_parameter (TPrim Pint) None);
     ("y", mk_parameter (TPrim Pint) None)]
    (TPrim Pint).

(** [def ping() -> str] *)
Definition ping : callable := Callable "ping" [] (TPrim Pstr).

(** [def scale(x: int = 0) -> int] *)
Definition scale : callable :=
  Callable "scale" [("x", mk_parameter (TPrim Pint) (Some (VInt 0)))]
    (TPrim Pint).

(** The arguments schema of [add]. *)
Definition add_schema : schema :=
  [("type", VStr "object");
   ("properties",
    VDict [("x", VDict [("type", VStr "number")]);
           ("y", VDict [("type", VStr "number")])]);
   ("required", VList [VStr "x"; VStr "y"])].

(** [shell.register("add", add, "", True, False)] followed by
    [shell.register("ping", ping, "", ping_validates, True)]. *)
Definition add_then_ping (ping_validates : bool) : Shell :=
  snd (register "ping" ping "" ping_validates true
         (snd (register "add" add "" true false []))).

(** [shell.register("scale", scale, "", False, True)] *)
Definition only_scale : Shell :=
  snd (register "scale" scale "" false true []).

(** Stand-ins for the three collaborators, to run the dispatchers on
    concrete requests: a validator that wants every name of [required] to
    be bound to an integer, callables that return [None], and two files. *)
Definition sample_validate (instance : value) (s : schema) : result unit :=
  match getitem s "required", instance with
  | Ok (VList names), VDict d =>
      if forallb
           (fun n =>
              match n with
              | VStr k => match getitem d k with Ok (VInt _) => true | _ => false end
              | _ => false
              end) names
      then Ok tt
      else Raise (ValidationError "is not of type 'number'")
  | Ok (VList (_ :: _)), _ => Raise (ValidationError "is not of type 'object'")
  | _, _ => Ok tt
  end.

Definition sample_run (f : callable) (kwargs : option dict) : result value :=
  Ok VNone.

Definition sample_json_load (text : string) : option value :=
  if String.eqb text "bad.json" then Some (VDict [("x", VStr "2"); ("y", VInt 3)])
  else if String.eqb text "five.json" then Some (VDict [("x", VInt 5)])
  else None.

(** The schema half of a compilation that returned. *)
Definition schema_of (r : result (schema * bool)) : schema :=
  match r with
  | Ok (s, _) => s
  | Raise _ => []
  end.

(** The entry of [properties] a field gives rise to. *)
Definition compiled_property (rec : annotation -> result (schema * bool))
    (kc : string * annotation) : string * value :=
  (fst kc, VDict (schema_of (rec (snd kc)))).

(** Lines 38-42: the schema object and the [required] the metadata loop
    of an [Annotated] starts from, given its base. *)
Definition annotated_start (type_ : annotation) : result (schema * bool) :=
  match type_ with
  | TPrim p => Ok ([("type", VStr (type_dict_ p))], false)
  | _ =>
      if hashable type_ then create_schema_object_from_annotation type_
      else Raise unhashable
  end.

(** What lines 106-107 make of the sub-schema of a parameter. *)
Definition with_default (cs : schema) (d : option value) : schema :=
  match d with
  | Some v => setitem cs "default" v
  | None => cs
  end.

(** Whether compiling the annotation of a parameter returned
    [required = True]. *)
Definition parameter_required (np : string * parameter) : bool :=
  verdict (create_schema_object_from_annotation (annotation_ (snd np))).

(** A parameter that has to be given: no default, and an annotation that
    compiled as required. *)
Definition mandatory (np : string * parameter) : bool :=
  match default (snd np) with
  | Some _ => false
  | None => parameter_required np
  end.

(** The entry of [properties] of a parameter, before and after the patch
    of lines 106-109. *)
Definition parameter_property (np : string * parameter) : string * value :=
  (fst np,
   VDict (schema_of (create_schema_object_from_annotation
                       (annotation_ (snd np))))).

Definition patched_property (np : string * parameter) : string * value :=
  (fst np,
   VDict (with_default
            (schema_of (create_schema_object_from_annotation
                          (annotation_ (snd np))))
            (default (snd np)))).

(** The parameters that declare a default, with it, in signature order. *)
Fixpoint defaults_of (ps : pydict parameter) : dict :=
  match ps with
  | [] => []
  | (name, p) :: rest =>
      match default p with
      | Some d => (name, d) :: defaults_of rest
      | None => defaults_of rest
      end
  end.

(** A descriptor once [get_args_json_schema] has run on it. *)
Definition warm (self : ShellFunctionDescriptor) : ShellFunctionDescriptor :=
  snd (get_args_json_schema self).

Definition warmed (entry : string * ShellFunctionDescriptor)
    : string * ShellFunctionDescriptor :=
  (fst entry, warm (snd entry)).

(** The arguments schema of a descriptor for which it can be derived. *)
Definition args_schema_of (self : ShellFunctionDescriptor) : schema :=
  match fst (get_args_json_schema self) with
  | Ok s => s
  | Raise _ => []
  end.

(** Whether the parser of a function takes [args] as a positional
    argument (line 173). *)
Definition takes_positional (self : ShellFunctionDescriptor) : bool :=
  match fst (has_args self) with
  | Ok b => b
  | Raise _ => false
  end.

Definition parser_of (entry : string * ShellFunctionDescriptor)
    : string * bool :=
  (fst entry, takes_positional (snd entry)).

(** What the loop of [CommandLineApp.exec] leaves in the variables
    [function_descriptor] and [args_json_schema] after the round of an
    entry, and in the end. *)
Definition cells_of (entry : string * ShellFunctionDescriptor) : cells :=
  Some (snd entry, args_schema_of (snd entry)).

Definition closure_cells (sh : Shell) : cells := last (map cells_of sh) None.

(** [shell.register("scale", scale, "", False, False)]: [scale] gets a
    route of the web service. *)
Definition scale_on_web : Shell :=
  snd (register "scale" scale "" false false []).

(** Lines 58-64 go through these first branches of a union without
    raising. *)
Definition branches_pass (pre : list annotation) : Prop :=
  exists st,
    union_loop create_schema_object_from_annotation pre
      [("type", VList [])] false = Ok st.

(** * Properties *)

(** ** Dictionaries *)

Section DictFacts.

Variable V : Type.
Implicit Types (d : pydict V) (k : string) (v : V).

Lemma getitem_setitem_same d k v : getitem (setitem d k v) k = Ok v.
Proof.
  induction d as [|[k' w] d IH]; simpl.
  - now rewrite String.eqb_refl.
  - destruct (String.eqb k' k) eqn:E; simpl; rewrite E; auto.
Qed.

Lemma setitem_setitem_same d k v v' :
  setitem (setitem d k v) k v' = setitem d k v'.
Proof.
  induction d as [|[k' w] d IH]; simpl.
  - now rewrite String.eqb_refl.
  - destruct (String.eqb k' k) eqn:E; simpl; rewrite E; congruence.
Qed.

Lemma setitem_getitem_id d k v : getitem d k = Ok v -> setitem d k v = d.
Proof.
  induction d as [|[k' w] d IH]; simpl; [discriminate|].
  destruct (String.eqb k' k) eqn:E; intros H.
  - congruence.
  - now rewrite IH.
Qed.

Lemma keys_setitem d k v x :
  In x (keys (setitem d k v)) <-> x = k \/ In x (keys d).
Proof.
  unfold keys. induction d as [|[k' w] d IH]; simpl.
  - intuition.
  - destruct (String.eqb k' k) eqn:E; simpl.
    + apply String.eqb_eq in E. subst. intuition.
    + rewrite IH. intuition.
Qed.

Lemma contains_keys d k : contains d k = true <-> In k (keys d).
Proof.
  unfold keys. induction d as [|[k' w] d IH]; simpl.
  - split; [discriminate | tauto].
  - destruct (String.eqb k' k) eqn:E.
    + apply String.eqb_eq in E. intuition.
    + apply String.eqb_neq in E. rewrite IH. intuition.
Qed.

End DictFacts.

Lemma last_cons {A : Type} (l : list A) (x d : A) : last (x :: l) d = last l x.
Proof.
  revert x d. induction l as [|y l IH]; intros x d; [reflexivity|].
  change (last (x :: y :: l) d) with (last (y :: l) d).
  now rewrite (IH y d), (IH y x).
Qed.

Lemma NoDup_keys_functional {A : Type} (l : list (string * A)) k (a b : A) :
  NoDup (map fst l) -> In (k, a) l -> In (k, b) l -> a = b.
Proof.
  induction l as [|[k' c] l IH]; simpl; [tauto|].
  intros Hnd Ha Hb. inversion Hnd as [|? ? Hnotin Hnd']; subst.
  destruct Ha as [Ha|Ha], Hb as [Hb|Hb].
  - congruence.
  - inversion Ha; subst. exfalso. apply Hnotin.
    change k with (fst (k, b)). now apply in_map.
  - inversion Hb; subst. exfalso. apply Hnotin.
    change k with (fst (k, a)). now apply in_map.
  - eauto.
Qed.

(** ** The record loop *)

Section RecordLoop.

Variable rec : annotation -> result (schema * bool).


Lemma record_loop_spec items :
  forall props reqs required,
    (forall kc, In kc items -> exists st, rec (snd kc) = Ok st) ->
    exists props',
      record_loop rec items props reqs required
      = Ok (props', (reqs ++ map VStr (required_names rec items))%list,
            last (map (field_required rec) items) required)
      /\ (forall k, In k (keys props') <->
                    In k (keys props) \/ In k (map fst items)).
Proof.
  induction items as [|[key child] items IH]; intros props reqs required Hall.
  - exists props. simpl. rewrite app_nil_r. split; [reflexivity | tauto].
  - destruct (Hall (key, child) (or_introl eq_refl)) as [[cs r'] Hc].
    simpl in Hc.
    destruct (IH (setitem props key (VDict cs))
                 (if r' then reqs ++ [VStr key] else reqs) r') as (props' & Hloop & Hkeys).
    { intros kc Hin. apply Hall. now right. }
    exists props'. split.
    + cbn [record_loop]. rewrite Hc. cbn [bind]. rewrite Hloop.
      assert (Hf : field_required rec (key, child) = r').
      { unfold field_required. cbn [snd]. rewrite Hc. now destruct r'. }
      unfold required_names. cbn [map filter].
      rewrite last_cons, Hf.
      destruct r'; cbn [map fst]; [rewrite <- app_assoc|]; reflexivity.
    + intros k. rewrite Hkeys, keys_setitem. cbn [map fst In].
      intuition (subst; auto).
Qed.

Lemma required_names_in items k :
  In k (required_names rec items) <->
  exists c, In (k, c) items /\ verdict (rec c) = true.
Proof.
  unfold required_names. rewrite in_map_iff. split.
  - intros ([k' c] & Hk & Hin). simpl in Hk. subst k'.
    apply filter_In in Hin. exists c. exact Hin.
  - intros (c & Hin & Hv). exists (k, c). split; [reflexivity|].
    apply filter_In. split; assumption.
Qed.

End RecordLoop.

Lemma verdict_true r : verdict r = true <-> exists cs, r = Ok (cs, true).
Proof.
  destruct r as [[cs []]|e]; simpl; split; intros H;
    try discriminate; eauto; destruct H as [? H]; discriminate.
Qed.

(** A [dict] of annotations and a class with [__annotations__] take the
    same path (lines 18-30). *)
Lemma compile_class fields :
  create_schema_object_from_annotation (TClass fields)
  = create_schema_object_from_annotation (TDict fields).
Proof. reflexivity. Qed.

Lemma compile_record key child fields :
  create_schema_object_from_annotation (TDict ((key, child) :: fields)) =
  ('(props, reqs, required) <-
     record_loop create_schema_object_from_annotation
       ((key, child) :: fields) [] [] false ;;
   Ok (object_schema props reqs, required)).
Proof. reflexivity. Qed.

(** What a record compiles to when each of its fields compiles. *)
Lemma compile_record_spec fields :
  fields <> [] ->
  (forall k c, In (k, c) fields -> exists st, create_schema_object_from_annotation c = Ok st) ->
  exists props,
    create_schema_object_from_annotation (TDict fields)
    = Ok (object_schema props
            (map VStr (required_names create_schema_object_from_annotation fields)),
          last (map (field_required create_schema_object_from_annotation) fields)
            false)
    /\ (forall k, In k (keys props) <-> In k (map fst fields)).
Proof.
  intros Hne Hall. destruct fields as [|[key child] fields]; [congruence|].
  destruct (record_loop_spec create_schema_object_from_annotation
              ((key, child) :: fields) [] [] false) as (props & Hloop & Hkeys).
  { intros [k c] Hin. eapply Hall; eassumption. }
  exists props. split.
  - rewrite compile_record, Hloop. reflexivity.
  - intros k. rewrite Hkeys. simpl. tauto.
Qed.

(** A record that compiles has fields that compile. *)
Lemma record_loop_ok_inv rec items :
  forall props reqs required out,
    record_loop rec items props reqs required = Ok out ->
    forall kc, In kc items -> exists st, rec (snd kc) = Ok st.
Proof.
  induction items as [|[key child] items IH]; intros props reqs required out Hloop kc Hin.
  - destruct Hin.
  - cbn [record_loop] in Hloop.
    destruct (rec child) as [[cs r']|e] eqn:Hc; cbn [bind] in Hloop; [|discriminate].
    destruct Hin as [<-|Hin]; [eexists; exact Hc|].
    eapply IH; eassumption.
Qed.

Lemma compile_record_inv fields out :
  fields <> [] ->
  create_schema_object_from_annotation (TDict fields) = Ok out ->
  forall k c, In (k, c) fields ->
    exists st, create_schema_object_from_annotation c = Ok st.
Proof.
  intros Hne Hc k c Hin. destruct fields as [|[key child] fields]; [congruence|].
  rewrite compile_record in Hc.
  destruct (record_loop _ ((key, child) :: fields) [] [] false) as [o|e] eqn:Hloop;
    [|discriminate].
  apply (record_loop_ok_inv _ _ _ _ _ Hloop (k, c) Hin).
Qed.

Lemma map_VStr_inj l1 l2 : map VStr l1 = map VStr l2 -> l1 = l2.
Proof.
  revert l2. induction l1 as [|x l1 IH]; intros [|y l2] H; try discriminate;
    [reflexivity|].
  simpl in H. inversion H. f_equal. now apply IH.
Qed.

(** C8. For every non-empty record (a [dict] of annotations, or a class
    with [__annotations__]) whose fields all compile, the compiled schema is
    an object schema in which every name of the [required] list is a key of
    [properties], and a field is in [required] exactly when compiling its
    child returned [required = True]. *)
Theorem record_required_names_are_properties fields a :
  a = TDict fields \/ a = TClass fields ->
  fields <> [] ->
  NoDup (map fst fields) ->
  (forall k c, In (k, c) fields ->
     exists st, create_schema_object_from_annotation c = Ok st) ->
  exists props reqs required,
    create_schema_object_from_annotation a
    = Ok (object_schema props (map VStr reqs), required)
    /\ (forall k, In k reqs -> In k (keys props))
    /\ (forall k c, In (k, c) fields ->
          (In k reqs <->
           exists cs, create_schema_object_from_annotation c = Ok (cs, true))).
Proof.
  intros Ha Hne Hnd Hall.
  destruct (compile_record_spec Hne Hall) as (props & Hc & Hkeys).
  exists props, (required_names create_schema_object_from_annotation fields).
  eexists. split; [|split].
  - destruct Ha as [-> | ->]; [|rewrite compile_class]; exact Hc.
  - intros k Hin. apply Hkeys.
    apply required_names_in in Hin. destruct Hin as (c & Hin & _).
    change k with (fst (k, c)). now apply in_map.
  - intros k c Hin. rewrite required_names_in. split.
    + intros (c' & Hin' & Hv).
      rewrite (NoDup_keys_functional _ k c c' Hnd Hin Hin').
      now apply verdict_true.
    + intros Hc'. exists c. split; [assumption | now apply verdict_true].
Qed.

Lemma record_required_names_are_properties_witness :
  exists props reqs required,
    create_schema_object_from_annotation
      (TDict [("a", TPrim Pstr); ("b", TUnion [TPrim Pint; TNone])])
    = Ok (object_schema props (map VStr reqs), required)
    /\ (forall k, In k reqs -> In k (keys props))
    /\ (forall k c,
          In (k, c) [("a", TPrim Pstr); ("b", TUnion [TPrim Pint; TNone])] ->
          (In k reqs <->
           exists cs, create_schema_object_from_annotation c = Ok (cs, true))).
Proof.
  apply (@record_required_names_are_properties
           [("a", TPrim Pstr); ("b", TUnion [TPrim Pint; TNone])]).
  - left; reflexivity.
  - discriminate.
  - repeat constructor; simpl; intuition discriminate.
  - intros k c [H|[H|[]]]; inversion H; subst; eexists; reflexivity.
Defined.

(** C9. The [required] a non-empty record returns is the [required] that
    compiling the child of its last field returned. *)
Theorem record_verdict_is_last_field fields k c a :
  a = TDict (fields ++ [(k, c)]) \/ a = TClass (fields ++ [(k, c)]) ->
  (forall k' c', In (k', c') (fields ++ [(k, c)]) ->
     exists st, create_schema_object_from_annotation c' = Ok st) ->
  exists s cs required,
    create_schema_object_from_annotation a = Ok (s, required)
    /\ create_schema_object_from_annotation c = Ok (cs, required).
Proof.
  intros Ha Hall.
  assert (Hne : fields ++ [(k, c)] <> []) by (destruct fields; discriminate).
  destruct (compile_record_spec Hne Hall) as (props & Hc & _).
  destruct (Hall k c) as [[cs r] Hlast].
  { apply in_or_app. right. now left. }
  rewrite map_app in Hc. cbn [map] in Hc. rewrite last_last in Hc.
  assert (Hf : field_required create_schema_object_from_annotation (k, c) = r).
  { unfold field_required. cbn [snd]. rewrite Hlast. now destruct r. }
  rewrite Hf in Hc.
  do 3 eexists. split; [|exact Hlast].
  destruct Ha as [-> | ->]; [|rewrite compile_class]; exact Hc.
Qed.

Lemma record_verdict_is_last_field_witness :
  exists s cs required,
    create_schema_object_from_annotation
      (TClass ([("a", TPrim Pstr)] ++ [("b", TUnion [TPrim Pint; TNone])]))
    = Ok (s, required)
    /\ create_schema_object_from_annotation (TUnion [TPrim Pint; TNone])
       = Ok (cs, required).
Proof.
  apply (@record_verdict_is_last_field
           [("a", TPrim Pstr)] "b" (TUnion [TPrim Pint; TNone])).
  - right; reflexivity.
  - intros k c [H|[H|[]]]; inversion H; subst; eexists; reflexivity.
Defined.

(** ** The union loop *)

Section UnionLoop.

Variable rec : annotation -> result (schema * bool).

Lemma union_loop_app l1 l2 :
  forall so r,
    union_loop rec (l1 ++ l2) so r
    = (st <- union_loop rec l1 so r ;; union_loop rec l2 (fst st) (snd st)).
Proof.
  induction l1 as [|arg l1 IH]; intros so r; [reflexivity|].
  destruct arg as [p| |fields|fields|base meta|lits|us|elem|name];
    cbn [app union_loop hashable];
    try apply IH; try reflexivity.
  - destruct (getitem so "type") as [t|e]; cbn [bind]; [|reflexivity].
    destruct (append t (VStr (type_dict_ p))) as [t'|e]; cbn [bind];
      [apply IH | reflexivity].
  - destruct (rec (TClass fields)) as [[so' r']|e]; cbn [bind];
      [apply IH | reflexivity].
  - destruct (forallb value_hashable lits); [|reflexivity].
    destruct (rec (TLiteral lits)) as [[so' r']|e]; cbn [bind];
      [apply IH | reflexivity].
  - destruct (forallb hashable us); [|reflexivity].
    destruct (rec (TUnion us)) as [[so' r']|e]; cbn [bind];
      [apply IH | reflexivity].
  - destruct (hashable elem); [|reflexivity].
    destruct (rec (TList elem)) as [[so' r']|e]; cbn [bind];
      [apply IH | reflexivity].
  - destruct (rec (TOther name)) as [[so' r']|e]; cbn [bind];
      [apply IH | reflexivity].
Qed.

(** Primitive branches and absence markers only: every primitive branch
    adds its name at the end of the list, whatever the list holds. *)
Lemma union_loop_scalars args :
  forall l,
    forallb scalar_or_none args = true ->
    union_loop rec args [("type", VList l)] false
    = Ok ([("type", VList (l ++ prim_names args))], false).
Proof.
  induction args as [|arg args IH]; intros l Hall.
  - simpl. now rewrite app_nil_r.
  - cbn [forallb] in Hall. apply andb_true_iff in Hall. destruct Hall as [Ha Hall].
    destruct arg as [p| | | | | | | |]; try discriminate Ha.
    + cbn [union_loop prim_names]. cbn. rewrite IH by assumption.
      now rewrite <- app_assoc.
    + cbn [union_loop prim_names]. now apply IH.
Qed.

(** After an absence marker, primitive branches and further markers leave
    [required] at [False]. *)
Lemma union_loop_scalars_required args :
  forall so so' r',
    forallb scalar_or_none args = true ->
    union_loop rec args so false = Ok (so', r') -> r' = false.
Proof.
  induction args as [|arg args IH]; intros so so' r' Hall Hloop.
  - simpl in Hloop. congruence.
  - cbn [forallb] in Hall. apply andb_true_iff in Hall. destruct Hall as [Ha Hall].
    destruct arg as [p| | | | | | | |]; try discriminate Ha;
      cbn [union_loop] in Hloop.
    + destruct (getitem so "type") as [t|e]; cbn [bind] in Hloop; [|discriminate].
      destruct (append t (VStr (type_dict_ p))) as [t'|e]; cbn [bind] in Hloop;
        [|discriminate].
      eapply IH; eassumption.
    + eapply IH; eassumption.
Qed.

End UnionLoop.

Lemma compile_union args :
  create_schema_object_from_annotation (TUnion args) =
  (st <- union_loop create_schema_object_from_annotation args
           [("type", VList [])] false ;;
   schema_object' <- union_collapse (fst st) ;;
   Ok (schema_object', snd st)).
Proof.
  cbn [create_schema_object_from_annotation].
  destruct (union_loop _ args _ false) as [[so r]|e]; reflexivity.
Qed.

Lemma union_collapse_type l :
  union_collapse [("type", VList l)] = Ok [("type", collapse l)].
Proof. destruct l as [|x [|y l]]; reflexivity. Qed.

(** A union of primitives and absence markers. *)
Lemma compile_union_scalars args :
  forallb scalar_or_none args = true ->
  create_schema_object_from_annotation (TUnion args)
  = Ok ([("type", collapse (prim_names args))], false).
Proof.
  intros Hall. rewrite compile_union, union_loop_scalars by assumption.
  cbn [bind fst snd app]. now rewrite union_collapse_type.
Qed.

Lemma prim_names_map ps :
  prim_names (map TPrim ps) = map (fun p => VStr (type_dict_ p)) ps.
Proof. induction ps as [|p ps IH]; simpl; congruence. Qed.

Lemma scalars_map ps : forallb scalar_or_none (map TPrim ps) = true.
Proof. induction ps as [|p ps IH]; simpl; auto. Qed.

(** C10. A union whose branches are all bare primitives compiles, and
    returns [required = False]; hence a record never lists a field of such
    a type in its [required] list. *)
Theorem union_of_primitives_not_required ps :
  create_schema_object_from_annotation (TUnion (map TPrim ps))
  = Ok ([("type", collapse (map (fun p => VStr (type_dict_ p)) ps))], false)
  /\ forall fields k,
       In (k, TUnion (map TPrim ps)) fields ->
       NoDup (map fst fields) ->
       forall props reqs required,
         create_schema_object_from_annotation (TDict fields)
         = Ok (object_schema props (map VStr reqs), required) ->
         ~ In k reqs.
Proof.
  assert (Hu : create_schema_object_from_annotation (TUnion (map TPrim ps))
               = Ok ([("type", collapse (map (fun p => VStr (type_dict_ p)) ps))],
                     false)).
  { rewrite compile_union_scalars by apply scalars_map.
    now rewrite prim_names_map. }
  split; [exact Hu|].
  intros fields k Hin Hnd props reqs required Hc Hk.
  assert (Hne : fields <> []) by (intros ->; destruct Hin).
  destruct (compile_record_spec Hne (compile_record_inv Hne Hc))
    as (props0 & Hc0 & _).
  rewrite Hc0 in Hc. unfold object_schema in Hc.
  injection Hc as _ Hreqs _. apply map_VStr_inj in Hreqs. subst reqs.
  apply required_names_in in Hk. destruct Hk as (c & Hin' & Hv).
  rewrite (NoDup_keys_functional _ k _ _ Hnd Hin' Hin), Hu in Hv.
  discriminate Hv.
Qed.

Lemma union_of_primitives_not_required_witness :
  create_schema_object_from_annotation (TUnion (map TPrim [Pint; Pstr]))
  = Ok ([("type", VList [VStr "number"; VStr "string"])], false)
  /\ ~ In "b" ["a"].
Proof.
  split.
  - exact (proj1 (union_of_primitives_not_required [Pint; Pstr])).
  - apply (proj2 (union_of_primitives_not_required [Pint; Pstr])
             [("a", TPrim Pstr); ("b", TUnion (map TPrim [Pint; Pstr]))] "b")
      with (props := [("a", VDict [("type", VStr "string")]);
                      ("b", VDict [("type", VList [VStr "number"; VStr "string"])])])
           (required := false).
    + right; left; reflexivity.
    + repeat constructor; simpl; intuition discriminate.
    + reflexivity.
Defined.

(** C4, as the claim states it, fails: [Union[int, float]] compiles to a
    [type] list with two equal entries. *)
Lemma union_int_float_not_deduplicated :
  exists l,
    create_schema_object_from_annotation (TUnion [TPrim Pint; TPrim Pfloat])
    = Ok ([("type", VList l)], false)
    /\ l = [VStr "number"; VStr "number"]
    /\ ~ NoDup l.
Proof.
  exists [VStr "number"; VStr "number"]. repeat split.
  intros H. inversion H as [|? ? Hnotin _]; subst. apply Hnotin. now left.
Qed.

(** C4, amended. Each primitive branch of a union appends its scalar name
    to the [type] list the schema object holds at that point, with no
    membership check; for a union of primitives and absence markers the
    compiled [type] is the list of the primitive branches' names, one per
    branch and in branch order (a single entry stands alone). *)
Theorem union_primitive_branch_appends :
  (forall pre p post so r l,
     union_loop create_schema_object_from_annotation pre
       [("type", VList [])] false = Ok (so, r) ->
     getitem so "type" = Ok (VList l) ->
     union_loop create_schema_object_from_annotation (pre ++ TPrim p :: post)
       [("type", VList [])] false
     = union_loop create_schema_object_from_annotation post
         (setitem so "type" (VList (l ++ [VStr (type_dict_ p)]))) r)
  /\ (forall args,
        forallb scalar_or_none args = true ->
        create_schema_object_from_annotation (TUnion args)
        = Ok ([("type", collapse (prim_names args))], false)).
Proof.
  split.
  - intros pre p post so r l Hpre Ht.
    rewrite union_loop_app, Hpre. cbn [bind fst snd union_loop].
    rewrite Ht. reflexivity.
  - exact compile_union_scalars.
Qed.

Lemma union_primitive_branch_appends_witness :
  union_loop create_schema_object_from_annotation
    ([TPrim Pint] ++ TPrim Pfloat :: [TNone]) [("type", VList [])] false
  = Ok ([("type", VList [VStr "number"; VStr "number"])], false)
  /\ create_schema_object_from_annotation
       (TUnion [TPrim Pint; TNone; TPrim Pfloat; TPrim Pstr])
     = Ok ([("type", VList [VStr "number"; VStr "number"; VStr "string"])],
           false).
Proof.
  split.
  - rewrite (proj1 union_primitive_branch_appends [TPrim Pint] Pfloat [TNone]
               [("type", VList [VStr "number"])] false [VStr "number"]);
      reflexivity.
  - apply (proj2 union_primitive_branch_appends
             [TPrim Pint; TNone; TPrim Pfloat; TPrim Pstr]).
    reflexivity.
Defined.

(** C2, as the claim states it, fails: in [Union[None, List[int]]] the
    branch after the absence marker sets [required] again. *)
Lemma union_none_first_required :
  create_schema_object_from_annotation (TUnion [TNone; TList (TPrim Pint)])
  = Ok ([("type", VStr "array"); ("items", VDict [("type", VStr "number")])],
        true).
Proof. reflexivity. Qed.

(** [Optional[X]] for an [X] that compiles to a schema whose [type] is a
    name such as ["object"] or ["array"]: the schema of [X], not
    required. *)
Lemma compile_optional x s r t :
  scalar_or_none x = false ->
  hashable x = true ->
  create_schema_object_from_annotation x = Ok (s, r) ->
  getitem s "type" = Ok (VStr t) ->
  String.length t <> 1 ->
  create_schema_object_from_annotation (TUnion [x; TNone]) = Ok (s, false).
Proof.
  intros Hx Hh Hc Ht Hlen. rewrite compile_union.
  assert (Hloop : union_loop create_schema_object_from_annotation [x; TNone]
                    [("type", VList [])] false = Ok (s, false)).
  { destruct x; try discriminate Hx; try discriminate Hh;
      cbn [union_loop]; rewrite ?Hh, Hc; reflexivity. }
  rewrite Hloop. cbn [bind fst snd]. unfold union_collapse.
  rewrite Ht. cbn [bind len].
  destruct (Nat.eqb (String.length t) 1) eqn:E; [|reflexivity].
  apply Nat.eqb_eq in E. contradiction.
Qed.

(** C2, amended. When no branch other than primitives and absence markers
    follows an absence marker, a union that compiles returns
    [required = False]; and [Optional[X]], whose marker is last, does
    compile, to the schema of [X], whenever [X] compiles to a schema whose
    [type] is a name such as ["object"] or ["array"]. *)
Theorem union_absence_marker_not_required :
  (forall pre post s required,
     forallb scalar_or_none post = true ->
     create_schema_object_from_annotation (TUnion (pre ++ TNone :: post))
     = Ok (s, required) ->
     required = false)
  /\ (forall x s r t,
        scalar_or_none x = false ->
        hashable x = true ->
        create_schema_object_from_annotation x = Ok (s, r) ->
        getitem s "type" = Ok (VStr t) ->
        String.length t <> 1 ->
        create_schema_object_from_annotation (TUnion [x; TNone])
        = Ok (s, false)).
Proof.
  split; [|exact compile_optional].
  intros pre post s required Hpost Hc.
  rewrite compile_union, union_loop_app in Hc.
  destruct (union_loop _ pre _ false) as [[so1 r1]|e]; cbn [bind] in Hc;
    [|discriminate].
  cbn [union_loop fst snd] in Hc.
  destruct (union_loop _ post so1 false) as [[so2 r2]|e] eqn:Hloop;
    cbn [bind fst snd] in Hc; [|discriminate].
  apply union_loop_scalars_required in Hloop; [|assumption]. subst r2.
  destruct (union_collapse so2); cbn [bind] in Hc; congruence.
Qed.

Lemma union_absence_marker_not_required_witness :
  (exists s required,
     create_schema_object_from_annotation
       (TUnion ([TPrim Pstr; TList (TPrim Pint)] ++ TNone :: [TNone]))
     = Ok (s, required)
     /\ required = false)
  /\ create_schema_object_from_annotation
       (TUnion [TClass [("x", TPrim Pint)]; TNone])
     = Ok (object_schema [("x", VDict [("type", VStr "number")])] [VStr "x"],
           false).
Proof.
  split.
  - do 2 eexists. split.
    + reflexivity.
    + apply (proj1 union_absence_marker_not_required
               [TPrim Pstr; TList (TPrim Pint)] [TNone]
               [("type", VStr "array");
                ("items", VDict [("type", VStr "number")])]);
        reflexivity.
  - apply (proj2 union_absence_marker_not_required
             (TClass [("x", TPrim Pint)]) _ true "object");
      try reflexivity.
    discriminate.
Defined.

(** C3. The code does not return for every union with a branch that is
    neither a primitive nor the absence marker: [Optional[Literal["a",
    "b"]]] ends in the [KeyError] of [schema_object["type"]] on line 65, and
    [Union[C, int]], for a class [C] with a field, in the [AttributeError]
    of [.append] on line 62. *)
Theorem union_with_compound_branch_raises :
  create_schema_object_from_annotation
    (TUnion [TLiteral [VStr "a"; VStr "b"]; TNone])
  = Raise (KeyError "type")
  /\ create_schema_object_from_annotation
       (TUnion [TClass [("x", TPrim Pint)]; TPrim Pint])
     = Raise (AttributeError "append").
Proof. split; reflexivity. Qed.

(** ** The metadata loop *)

Lemma annotated_loop_app m1 m2 :
  forall so r,
    annotated_loop (m1 ++ m2) so r
    = annotated_loop m2 (fst (annotated_loop m1 so r))
        (snd (annotated_loop m1 so r)).
Proof.
  induction m1 as [|[key v] m1 IH]; intros so r; [reflexivity|].
  cbn [app annotated_loop].
  destruct (String.eqb key "required"); apply IH.
Qed.

Lemma annotated_loop_no_required m :
  forall so,
    ~ In "required" (keys m) -> snd (annotated_loop m so false) = false.
Proof.
  induction m as [|[key v] m IH]; intros so Hnotin; [reflexivity|].
  cbn [annotated_loop].
  destruct (String.eqb key "required") eqn:E.
  - apply String.eqb_eq in E. subst key. exfalso. apply Hnotin. now left.
  - replace (if String.eqb key "default" then false else false) with false
      by now destruct (String.eqb key "default").
    apply IH. intros Hin. apply Hnotin. now right.
Qed.

Lemma compile_annotated base meta st :
  hashable base = true ->
  create_schema_object_from_annotation base = Ok st ->
  exists so r,
    create_schema_object_from_annotation (TAnnotated base meta)
    = Ok (annotated_loop meta so r).
Proof.
  intros Hh Hc. destruct st as [s0 r0].
  destruct base; try discriminate Hh;
    cbn [create_schema_object_from_annotation] in *;
    try (rewrite ?Hh, Hc; cbn [bind]; do 2 eexists; reflexivity).
  cbn [bind]. do 2 eexists; reflexivity.
Qed.

(** C1, as the claim states it, fails: [Annotated[int, {"default": 0,
    "required": True}]] is required. *)
Lemma annotated_required_after_default :
  create_schema_object_from_annotation
    (TAnnotated (TPrim Pint) [("default", VInt 0); ("required", VBool true)])
  = Ok ([("type", VStr "number"); ("default", VInt 0)], true).
Proof. reflexivity. Qed.

(** C1, amended. When the metadata of an [Annotated] whose base compiles
    gives [default] after [required], the result is [required = False],
    whatever the value of [required]. *)
Theorem annotated_default_after_required base m1 v m2 d m3 st :
  hashable base = true ->
  create_schema_object_from_annotation base = Ok st ->
  NoDup (keys (m1 ++ ("required", v) :: m2 ++ ("default", d) :: m3)) ->
  exists s,
    create_schema_object_from_annotation
      (TAnnotated base (m1 ++ ("required", v) :: m2 ++ ("default", d) :: m3))
    = Ok (s, false).
Proof.
  intros Hh Hc Hnd.
  destruct (@compile_annotated base
              (m1 ++ ("required", v) :: m2 ++ ("default", d) :: m3) st Hh Hc)
    as (so & r & ->).
  assert (Hm3 : ~ In "required" (keys m3)).
  { unfold keys in *. rewrite map_app in Hnd. cbn [map fst] in Hnd.
    apply NoDup_remove_2 in Hnd. intros Hin. apply Hnd.
    apply in_or_app. right. rewrite map_app. apply in_or_app. right.
    now right. }
  replace (m1 ++ ("required", v) :: m2 ++ ("default", d) :: m3)
    with ((m1 ++ ("required", v) :: m2) ++ ("default", d) :: m3)
    by (rewrite <- app_assoc; reflexivity).
  rewrite annotated_loop_app.
  destruct (annotated_loop (m1 ++ ("required", v) :: m2) so r) as [so1 r1].
  cbn [fst snd annotated_loop String.eqb Ascii.eqb Bool.eqb].
  destruct (annotated_loop m3 (setitem so1 "default" d) false) as [so3 r3] eqn:E.
  exists so3. f_equal. f_equal.
  change r3 with (snd (so3, r3)). rewrite <- E.
  now apply annotated_loop_no_required.
Qed.

Lemma annotated_default_after_required_witness :
  exists s,
    create_schema_object_from_annotation
      (TAnnotated (TList (TPrim Pint))
         ([("description", VStr "numbers")] ++ ("required", VBool true)
            :: [("minItems", VInt 1)] ++ ("default", VList []) :: []))
    = Ok (s, false).
Proof.
  apply (@annotated_default_after_required (TList (TPrim Pint))
           [("description", VStr "numbers")] (VBool true)
           [("minItems", VInt 1)] (VList []) []
           ([("type", VStr "array"); ("items", VDict [("type", VStr "number")])],
            true)).
  - reflexivity.
  - reflexivity.
  - repeat constructor; simpl; intuition discriminate.
Defined.

(** ** The function descriptor *)

(** C5. For an operation with a string parameter [a] without default and a
    number parameter [b] with default [0], the record of the parameters
    compiles with both names required and no default; the first call of
    [get_args_json_schema] returns the patched schema, [default] injected
    under [b] and [b] taken out of [required]; the next call returns the
    same cached object. *)
Theorem args_schema_default_patch name ret description validate cli p :
  type_dict_ p = "number" ->
  let f :=
    Callable name
      [("a", mk_parameter (TPrim Pstr) None);
       ("b", mk_parameter (TPrim p) (Some (VInt 0)))] ret in
  let self := init_descriptor f description validate cli in
  create_schema_object_from_annotation (TDict (params_of (parameters f)))
  = Ok (object_schema
          [("a", VDict [("type", VStr "string")]);
           ("b", VDict [("type", VStr "number")])]
          [VStr "a"; VStr "b"], true)
  /\ fst (get_args_json_schema self) = Ok args_schema_a_b
  /\ fst (get_args_json_schema (snd (get_args_json_schema self)))
     = Ok args_schema_a_b.
Proof.
  intros Hp f self. destruct p; try discriminate Hp; repeat split.
Qed.

Lemma args_schema_default_patch_witness :
  fst (get_args_json_schema
         (init_descriptor
            (Callable "f"
               [("a", mk_parameter (TPrim Pstr) None);
                ("b", mk_parameter (TPrim Pfloat) (Some (VInt 0)))]
               (TPrim Pfloat))
            "a function" true true))
  = Ok args_schema_a_b.
Proof.
  apply (@args_schema_default_patch "f" (TPrim Pfloat) "a function" true true
           Pfloat eq_refl).
Defined.

Lemma get_args_json_schema_cached self s self1 :
  get_args_json_schema self = (Ok s, self1) ->
  get_args_json_schema self1 = (Ok s, self1)
  /\ function self1 = function self
  /\ validate_schema self1 = validate_schema self.
Proof.
  unfold get_args_json_schema.
  destruct (_args_json_schema self) as [s0|] eqn:Hcache.
  - intros H. inversion H; subst. now rewrite Hcache.
  - destruct (create_schema_object_from_annotation _) as [[s0 r0]|e];
      [|discriminate].
    destruct (patch_defaults _ s0) as [[u|e] s'];
      intros H; inversion H; subst. simpl. auto.
Qed.

Lemma has_args_spec self s self1 :
  get_args_json_schema self = (Ok s, self1) ->
  has_args self = (has_required s, self1).
Proof.
  intros H. unfold has_args, has_required, mbind. rewrite H.
  destruct (contains s "required"); [|reflexivity].
  rewrite (proj1 (get_args_json_schema_cached _ H)).
  unfold lift, mret.
  destruct (getitem s "required") as [required|e]; [|reflexivity].
  cbn [bind]. destruct (len required); reflexivity.
Qed.

Lemma has_args_ok self b :
  fst (has_args self) = Ok b ->
  exists s self1,
    get_args_json_schema self = (Ok s, self1) /\ has_required s = Ok b.
Proof.
  destruct (get_args_json_schema self) as [[s|e] self1] eqn:H.
  - rewrite (has_args_spec _ H). simpl. eauto.
  - unfold has_args, mbind. rewrite H. discriminate.
Qed.

(** ** Dispatch *)

Section DispatchFacts.

Variable jsonschema_validate : value -> schema -> result unit.
Variable run : callable -> option dict -> result value.
Variable json_load : string -> option value.

Lemma on_descriptor_spec (A : Type) (m : M ShellFunctionDescriptor A)
    sh cs name self :
  get_function_descriptor sh name = Ok self ->
  on_descriptor name m (World sh cs)
  = (fst (m self), World (setitem sh name (snd (m self))) cs).
Proof.
  intros H. unfold on_descriptor. cbn [shell calls]. rewrite H.
  now destruct (m self).
Qed.

Lemma on_descriptor_get sh cs name self :
  get_function_descriptor sh name = Ok self ->
  on_descriptor name get (World sh cs) = (Ok self, World sh cs).
Proof.
  intros H. rewrite (@on_descriptor_spec _ get sh cs name self H).
  cbn [get fst snd]. now rewrite (setitem_getitem_id _ _ H).
Qed.

Lemma get_after_set (sh : Shell) name self :
  get_function_descriptor (setitem sh name self) name = Ok self.
Proof. apply getitem_setitem_same. Qed.

(** The web path of C6: with validation on, a payload the validator
    rejects ends the request in the validator's error, and the log of
    calls is as before. *)
Lemma flask_end_point_rejects w name self s msg json_args :
  get_function_descriptor (shell w) name = Ok self ->
  validate_schema self = true ->
  fst (get_args_json_schema self) = Ok s ->
  jsonschema_validate json_args s = Raise (ValidationError msg) ->
  fst (flask_end_point jsonschema_validate run name json_args w)
  = Raise (ValidationError msg)
  /\ calls (snd (flask_end_point jsonschema_validate run name json_args w))
     = calls w.
Proof.
  destruct w as [sh cs]. cbn [shell calls]. intros Hget Hv Hs Hval.
  unfold flask_end_point, mbind.
  rewrite (@on_descriptor_get sh cs name self Hget), Hv.
  rewrite (@on_descriptor_spec _ get_args_json_schema sh cs name self Hget).
  rewrite Hs. unfold lift. rewrite Hval. auto.
Qed.

Lemma on_descriptor_calls (A : Type) (m : M ShellFunctionDescriptor A)
    name w :
  calls (snd (on_descriptor name m w)) = calls w.
Proof.
  unfold on_descriptor.
  destruct (get_function_descriptor (shell w) name); [|reflexivity].
  now destruct (m a).
Qed.

(** Setting up the parsers calls no registered function. *)
Lemma build_parsers_calls function_names :
  forall parsers c w,
    calls (snd (build_parsers function_names parsers c w)) = calls w.
Proof.
  induction function_names as [|function_name rest IH]; intros parsers c w;
    [reflexivity|].
  cbn [build_parsers]. unfold mbind.
  pose proof (on_descriptor_calls get function_name w) as H1.
  destruct (on_descriptor function_name get w) as [[fd|e] w1];
    cbn [snd] in H1; [|exact H1].
  pose proof (on_descriptor_calls get_args_json_schema function_name w1) as H2.
  destruct (on_descriptor function_name get_args_json_schema w1) as [[s|e] w2];
    cbn [snd] in H2; [|cbn [snd]; congruence].
  pose proof (on_descriptor_calls has_args function_name w2) as H3.
  destruct (on_descriptor function_name has_args w2) as [[b|e] w3];
    cbn [snd] in H3; [|cbn [snd]; congruence].
  rewrite IH. congruence.
Qed.

(** The call the end point makes once validation is off or has passed. *)
Lemma flask_end_point_call_form w name self s b json_args :
  get_function_descriptor (shell w) name = Ok self ->
  fst (get_args_json_schema self) = Ok s ->
  (validate_schema self = true -> jsonschema_validate json_args s = Ok tt) ->
  fst (has_args self) = Ok b ->
  let out := flask_end_point jsonschema_validate run name json_args w in
  (b = false ->
     fst out = run (function self) None
     /\ calls (snd out) = calls w ++ [Call (function self) None])
  /\ (b = true -> forall d, json_args = VDict d ->
        fst out = run (function self) (Some d)
        /\ calls (snd out) = calls w ++ [Call (function self) (Some d)]).
Proof.
  destruct w as [sh cs]. intros Hget Hs Hval Hb out.
  cbn [shell calls] in *.
  destruct (has_args_ok _ Hb) as (s' & self1 & Hs' & Hr).
  rewrite Hs' in Hs. cbn [fst] in Hs. injection Hs as ->.
  destruct (get_args_json_schema_cached _ Hs') as (Hcached & _ & _).
  assert (Hout : out =
                 if b then
                   (kwargs <- lift (kwargs_of json_args) ;;
                    invoke run (function self) (Some kwargs))%st
                     (World (setitem sh name self1) cs)
                 else invoke run (function self) None
                        (World (setitem sh name self1) cs)).
  { subst out. unfold flask_end_point, mbind.
    rewrite (@on_descriptor_get sh cs name self Hget).
    destruct (validate_schema self) eqn:Hv.
    - rewrite (@on_descriptor_spec _ get_args_json_schema sh cs name self Hget).
      rewrite Hs'. cbn [fst snd]. unfold lift at 1. rewrite (Hval eq_refl).
      rewrite (@on_descriptor_spec _ has_args _ cs name self1
                 (get_after_set _ _ _)).
      rewrite (has_args_spec _ Hcached), Hr. cbn [fst snd].
      rewrite setitem_setitem_same. destruct b; reflexivity.
    - unfold mret at 1.
      rewrite (@on_descriptor_spec _ has_args sh cs name self Hget).
      rewrite (has_args_spec _ Hs'), Hr. cbn [fst snd].
      destruct b; reflexivity. }
  rewrite Hout. split.
  - intros ->. split; reflexivity.
  - intros -> d ->. split; reflexivity.
Qed.

End DispatchFacts.

(** C7, as the claim states it, fails on the command line: [scale] has a
    default for its only parameter, so [has_args()] is false, and a payload
    given with [--args] is passed to it as named arguments. *)
Lemma exec_passes_optional_payload :
  fst (has_args (init_descriptor scale "" false true)) = Ok false
  /\ calls (snd (exec sample_validate sample_run sample_json_load
                   "scale" (Some "five.json") (World only_scale [])))
     = [Call scale (Some [("x", VInt 5)])]
  /\ calls (snd (exec sample_validate sample_run sample_json_load
                   "scale" (Some "five.json") (World only_scale [])))
     <> [Call scale None].
Proof.
  assert (H : calls (snd (exec sample_validate sample_run sample_json_load
                            "scale" (Some "five.json") (World only_scale [])))
              = [Call scale (Some [("x", VInt 5)])]) by reflexivity.
  split; [reflexivity|]. split; [exact H|]. rewrite H. discriminate.
Qed.

(** C6. The web path stops at the validator's error, but the command line
    does not: the parser of every function validates against the schema and
    the [validate_schema] flag of the function registered last, because
    [json_or_json_file] reads [function_descriptor] and [args_json_schema]
    when it is called, after the loop.  With [ping] registered after [add],
    a payload that [add]'s schema rejects reaches [add]. *)
Theorem exec_validates_against_last_function
    (jsonschema_validate : value -> schema -> result unit)
    (run : callable -> option dict -> result value)
    (json_load : string -> option value)
    (ping_validates : bool) (text : string) (d : dict) (msg : string) :
  json_load text = Some (VDict d) ->
  jsonschema_validate (VDict d) add_schema = Raise (ValidationError msg) ->
  (ping_validates = true -> jsonschema_validate (VDict d) [] = Ok tt) ->
  let w := World (add_then_ping ping_validates) [] in
  fst (get_args_json_schema (init_descriptor add "" true false)) = Ok add_schema
  /\ fst (flask_end_point jsonschema_validate run "add" (VDict d) w)
     = Raise (ValidationError msg)
  /\ calls (snd (flask_end_point jsonschema_validate run "add" (VDict d) w)) = []
  /\ fst (exec jsonschema_validate run json_load "add" (Some text) w)
     = run add (Some d)
  /\ calls (snd (exec jsonschema_validate run json_load "add" (Some text) w))
     = [Call add (Some d)].
Proof.
  intros Hload Hadd Hping w.
  assert (Hweb := @flask_end_point_rejects jsonschema_validate run w "add"
                    (init_descriptor add "" true false) add_schema msg (VDict d)).
  split; [reflexivity|].
  destruct Hweb as [H1 H2]; try reflexivity; try assumption.
  split; [exact H1|]. split; [exact H2|].
  subst w. destruct ping_validates.
  - vm_compute. rewrite Hload. vm_compute. rewrite (Hping eq_refl). split; reflexivity.
  - vm_compute. rewrite Hload. split; reflexivity.
Qed.

Lemma exec_validates_against_last_function_witness :
  fst (flask_end_point sample_validate sample_run "add"
         (VDict [("x", VStr "2"); ("y", VInt 3)])
         (World (add_then_ping true) []))
  = Raise (ValidationError "is not of type 'number'")
  /\ calls (snd (exec sample_validate sample_run sample_json_load
                   "add" (Some "bad.json") (World (add_then_ping true) [])))
     = [Call add (Some [("x", VStr "2"); ("y", VInt 3)])].
Proof.
  destruct (@exec_validates_against_last_function
              sample_validate sample_run sample_json_load true "bad.json"
              [("x", VStr "2"); ("y", VInt 3)] "is not of type 'number'"
              eq_refl eq_refl (fun _ => eq_refl))
    as (_ & Hweb & _ & _ & Hcli).
  split; [exact Hweb | exact Hcli].
Defined.

(** * Further properties *)

(** ** Dictionaries, continued *)

Section DictLookup.

Variable V : Type.
Implicit Types (d : pydict V) (k : string) (v : V).

Lemma getitem_setitem_other d k k' v :
  k <> k' -> getitem (setitem d k v) k' = getitem d k'.
Proof.
  intros Hne. induction d as [|[k0 w] d IH]; simpl.
  - apply String.eqb_neq in Hne. now rewrite Hne.
  - destruct (String.eqb k0 k) eqn:E; simpl.
    + apply String.eqb_eq in E. subst k0.
      apply String.eqb_neq in Hne. now rewrite Hne.
    + now rewrite IH.
Qed.

Lemma getitem_ok_in d k v : getitem d k = Ok v -> In (k, v) d.
Proof.
  induction d as [|[k0 w] d IH]; simpl; [discriminate|].
  destruct (String.eqb k0 k) eqn:E; intros H.
  - apply String.eqb_eq in E. left. congruence.
  - right. auto.
Qed.

Lemma getitem_in d k v : NoDup (keys d) -> In (k, v) d -> getitem d k = Ok v.
Proof.
  unfold keys. induction d as [|[k0 w] d IH]; simpl; [tauto|].
  intros Hnd Hin. inversion Hnd as [|? ? Hnotin Hnd']; subst.
  destruct Hin as [Hin|Hin].
  - inversion Hin; subst. now rewrite String.eqb_refl.
  - destruct (String.eqb k0 k) eqn:E; [|auto].
    apply String.eqb_eq in E. subst k0. exfalso. apply Hnotin.
    change k with (fst (k, v)). now apply in_map.
Qed.

Lemma getitem_missing d k : ~ In k (keys d) -> getitem d k = Raise (KeyError k).
Proof.
  unfold keys. induction d as [|[k0 w] d IH]; simpl; [reflexivity|].
  intros Hnotin. destruct (String.eqb k0 k) eqn:E.
  - apply String.eqb_eq in E. tauto.
  - apply IH. tauto.
Qed.

Lemma getitem_present d k : In k (keys d) -> exists v, getitem d k = Ok v.
Proof.
  unfold keys. induction d as [|[k0 w] d IH]; simpl; [tauto|].
  intros Hin. destruct (String.eqb k0 k) eqn:E; [eauto|].
  apply String.eqb_neq in E. destruct Hin as [Hin|Hin]; [congruence | auto].
Qed.

Lemma setitem_fresh d k v : ~ In k (keys d) -> setitem d k v = d ++ [(k, v)].
Proof.
  unfold keys. induction d as [|[k0 w] d IH]; simpl; [reflexivity|].
  intros Hnotin. destruct (String.eqb k0 k) eqn:E.
  - apply String.eqb_eq in E. tauto.
  - rewrite IH; tauto.
Qed.

Lemma keys_setitem_present d k v :
  In k (keys d) -> keys (setitem d k v) = keys d.
Proof.
  unfold keys. induction d as [|[k0 w] d IH]; simpl; [tauto|].
  intros Hin. destruct (String.eqb k0 k) eqn:E; simpl.
  - reflexivity.
  - apply String.eqb_neq in E. f_equal. apply IH.
    destruct Hin; [congruence | assumption].
Qed.

Lemma keys_app d1 d2 : keys (d1 ++ d2) = keys d1 ++ keys d2.
Proof. apply map_app. Qed.

End DictLookup.

(** ** The registry *)

(** X1. [register] succeeds exactly when the name is not registered yet.
    A refused registration raises [ValueError] and leaves the registry as
    it was; an accepted one puts the name last, bound to a descriptor with
    the given function, description and flags and with both caches empty,
    and changes nothing under the other names. *)
Theorem register_outcome name f description validate cli (sh : Shell) :
  (In name (get_function_names sh) ->
     exists msg,
       register name f description validate cli sh
       = (Raise (ValueError msg), sh))
  /\ (~ In name (get_function_names sh) ->
        let sh' := snd (register name f description validate cli sh) in
        fst (register name f description validate cli sh) = Ok tt
        /\ get_function_names sh' = get_function_names sh ++ [name]
        /\ get_function_descriptor sh' name
           = Ok (Descriptor f description validate cli None None)
        /\ (forall other, other <> name ->
              get_function_descriptor sh' other
              = get_function_descriptor sh other)).
Proof.
  unfold register, get_function_names, get_function_descriptor. split.
  - intros Hin. apply contains_keys in Hin. rewrite Hin. eauto.
  - intros Hnotin.
    destruct (contains sh name) eqn:E;
      [apply contains_keys in E; contradiction|].
    cbn [fst snd]. repeat split.
    + rewrite setitem_fresh by assumption. rewrite keys_app. reflexivity.
    + apply getitem_setitem_same.
    + intros other Hne. apply getitem_setitem_other. congruence.
Qed.

Lemma register_outcome_witness :
  get_function_names
    (snd (register "ping" ping "" true true
            (snd (register "add" add "" true false []))))
  = ["add"; "ping"]
  /\ exists msg,
       register "add" scale "" true true (add_then_ping true)
       = (Raise (ValueError msg), add_then_ping true).
Proof.
  split.
  - apply (proj2 (register_outcome "ping" ping "" true true
                    (snd (register "add" add "" true false [])))).
    simpl. intuition discriminate.
  - apply (proj1 (register_outcome "add" scale "" true true (add_then_ping true))).
    simpl. auto.
Defined.

(** Registration keeps the names of the registry distinct, whether it is
    accepted or refused. *)
Lemma register_keeps_names_distinct name f description validate cli
    (sh : Shell) :
  NoDup (get_function_names sh) ->
  NoDup (get_function_names
           (snd (register name f description validate cli sh))).
Proof.
  intros Hnd. unfold register, get_function_names in *.
  destruct (contains sh name) eqn:E; cbn [snd]; [assumption|].
  assert (Hnotin : ~ In name (keys sh)).
  { intros Hin. apply contains_keys in Hin. congruence. }
  rewrite setitem_fresh by assumption. rewrite keys_app.
  apply NoDup_app; [assumption | repeat constructor; simpl; tauto |].
  intros x Hx [<-|[]]. contradiction.
Qed.

(** X2. [get_function_descriptor] raises [KeyError], carrying the name,
    exactly for the names [get_function_names] does not list; for a listed
    name it returns a descriptor held by the registry. *)
Theorem get_function_descriptor_outcome (sh : Shell) name :
  (get_function_descriptor sh name = Raise (KeyError name)
   <-> ~ In name (get_function_names sh))
  /\ (In name (get_function_names sh) <->
      exists self, get_function_descriptor sh name = Ok self
                   /\ In (name, self) sh).
Proof.
  unfold get_function_descriptor, get_function_names. split; split.
  - intros H Hin. apply getitem_present in Hin. destruct Hin as [v Hv].
    congruence.
  - apply getitem_missing.
  - intros Hin. destruct (getitem_present _ _ Hin) as [v Hv].
    exists v. split; [assumption | now apply getitem_ok_in].
  - intros (self & _ & Hin). unfold keys.
    change name with (fst (name, self)). now apply in_map.
Qed.

Lemma get_function_descriptor_outcome_witness :
  get_function_descriptor (add_then_ping true) "scale"
  = Raise (KeyError "scale")
  /\ exists self,
       get_function_descriptor (add_then_ping true) "ping" = Ok self
       /\ In ("ping", self) (add_then_ping true).
Proof.
  split.
  - apply (proj1 (get_function_descriptor_outcome (add_then_ping true) "scale")).
    simpl. intuition discriminate.
  - apply (proj2 (get_function_descriptor_outcome (add_then_ping true) "ping")).
    simpl. auto.
Defined.

(** X3. In a registry with distinct names,
    [get_non_command_line_function_names] lists exactly the names whose
    descriptor has [command_line_function = False], each of them a
    registered name: a function registered with the default flag is not
    among them. *)
Theorem non_command_line_names (sh : Shell) name :
  NoDup (get_function_names sh) ->
  (In name (get_non_command_line_function_names sh) <->
   exists self,
     get_function_descriptor sh name = Ok self
     /\ command_line_function self = false)
  /\ (In name (get_non_command_line_function_names sh) ->
      In name (get_function_names sh)).
Proof.
  unfold get_function_names, get_function_descriptor, keys.
  induction sh as [|[key fd] sh IH]; intros Hnd.
  - simpl. split; [|tauto]. split; [tauto|]. intros (self & H & _). discriminate.
  - inversion Hnd as [|? ? Hnotin Hnd']; subst.
    destruct (IH Hnd') as [IH1 IH2]. cbn [get_non_command_line_function_names
      getitem map fst].
    destruct (String.eqb key name) eqn:E.
    + apply String.eqb_eq in E. subst key.
      destruct (command_line_function fd) eqn:Hc.
      * split.
        -- split.
           ++ intros Hin. exfalso. apply Hnotin. now apply IH2.
           ++ intros (self & H & Hf). congruence.
        -- intros Hin. now left.
      * split.
        -- split; [eauto | intros _; now left].
        -- intros _. now left.
    + apply String.eqb_neq in E.
      destruct (command_line_function fd) eqn:Hc.
      * split; [exact IH1 | intros Hin; right; now apply IH2].
      * cbn [In]. split.
        -- rewrite <- IH1. intuition congruence.
        -- intros [Hin|Hin]; [congruence | right; now apply IH2].
Qed.

Lemma non_command_line_names_witness :
  In "add" (get_non_command_line_function_names (add_then_ping true))
  /\ ~ In "ping" (get_non_command_line_function_names (add_then_ping true)).
Proof.
  assert (Hnd : NoDup (get_function_names (add_then_ping true)))
    by (repeat constructor; simpl; intuition discriminate).
  split.
  - apply (proj1 (non_command_line_names (add_then_ping true) "add" Hnd)).
    eexists. split; reflexivity.
  - intros Hin.
    apply (proj1 (non_command_line_names (add_then_ping true) "ping" Hnd)) in Hin.
    destruct Hin as (self & Hget & Hf). inversion Hget; subst. discriminate.
Defined.

(** ** Records, continued *)

Section RecordLoopExact.

Variable rec : annotation -> result (schema * bool).

Lemma record_loop_app l1 l2 :
  forall props reqs required,
    record_loop rec (l1 ++ l2) props reqs required
    = (st <- record_loop rec l1 props reqs required ;;
       record_loop rec l2 (fst (fst st)) (snd (fst st)) (snd st)).
Proof.
  induction l1 as [|[key child] l1 IH]; intros props reqs required;
    [reflexivity|].
  cbn [app record_loop].
  destruct (rec child) as [[cs r']|e]; cbn [bind]; [apply IH | reflexivity].
Qed.

Lemma record_loop_exact items :
  forall props reqs required,
    NoDup (keys props ++ map fst items) ->
    (forall kc, In kc items -> exists st, rec (snd kc) = Ok st) ->
    record_loop rec items props reqs required
    = Ok (props ++ map (compiled_property rec) items,
          reqs ++ map VStr (required_names rec items),
          last (map (field_required rec) items) required).
Proof.
  induction items as [|[key child] items IH]; intros props reqs required Hnd Hall.
  - simpl. now rewrite !app_nil_r.
  - destruct (Hall (key, child) (or_introl eq_refl)) as [[cs r'] Hc].
    cbn [snd] in Hc. cbn [record_loop]. rewrite Hc. cbn [bind].
    cbn [map fst] in Hnd.
    assert (Hfresh : ~ In key (keys props)).
    { apply NoDup_remove_2 in Hnd. intros Hin. apply Hnd.
      apply in_or_app. now left. }
    rewrite setitem_fresh by assumption.
    rewrite IH.
    + assert (Hf : field_required rec (key, child) = r').
      { unfold field_required. cbn [snd]. rewrite Hc. now destruct r'. }
      unfold required_names. cbn [map filter]. rewrite last_cons, Hf.
      unfold compiled_property at 2. cbn [fst snd]. rewrite Hc. cbn [schema_of].
      rewrite <- app_assoc. cbn [app].
      destruct r'; cbn [map fst]; [rewrite <- app_assoc|]; reflexivity.
    + rewrite keys_app, <- app_assoc. exact Hnd.
    + intros kc Hin. apply Hall. now right.
Qed.

End RecordLoopExact.

(** X4. A non-empty record with distinct field names whose fields all
    compile yields an object schema whose [properties] are the fields in
    declaration order, each bound to the schema its child compiled to, and
    whose [required] lists, in the same order, the fields whose child
    returned [required = True]. *)
Theorem record_schema_exact fields a :
  a = TDict fields \/ a = TClass fields ->
  fields <> [] ->
  NoDup (map fst fields) ->
  (forall k c, In (k, c) fields ->
     exists st, create_schema_object_from_annotation c = Ok st) ->
  create_schema_object_from_annotation a
  = Ok ([("type", VStr "object");
         ("properties",
          VDict (map (compiled_property create_schema_object_from_annotation)
                   fields));
         ("required",
          VList (map VStr
                   (required_names create_schema_object_from_annotation fields)))],
        last (map (field_required create_schema_object_from_annotation) fields)
          false).
Proof.
  intros Ha Hne Hnd Hall.
  assert (Hd : create_schema_object_from_annotation (TDict fields)
               = create_schema_object_from_annotation a)
    by (destruct Ha as [-> | ->]; reflexivity).
  rewrite <- Hd. destruct fields as [|[key child] fields]; [congruence|].
  rewrite compile_record, record_loop_exact.
  - reflexivity.
  - exact Hnd.
  - intros [k c] Hin. eapply Hall; eassumption.
Qed.

Lemma record_schema_exact_witness :
  create_schema_object_from_annotation
    (TClass [("a", TList (TPrim Pstr)); ("b", TUnion [TPrim Pint; TNone])])
  = Ok ([("type", VStr "object");
         ("properties",
          VDict [("a", VDict [("type", VStr "array");
                              ("items", VDict [("type", VStr "string")])]);
                 ("b", VDict [("type", VStr "number")])]);
         ("required", VList [VStr "a"])],
        false).
Proof.
  apply (@record_schema_exact
           [("a", TList (TPrim Pstr)); ("b", TUnion [TPrim Pint; TNone])]).
  - right; reflexivity.
  - discriminate.
  - repeat constructor; simpl; intuition discriminate.
  - intros k c [H|[H|[]]]; inversion H; subst; eexists; reflexivity.
Defined.

(** X5. A record raises what its first failing field raises: when the
    fields before a field compile and the child of that field raises, so
    does the record, with the same exception and whatever comes after. *)
Theorem record_first_failure pre k c post e a :
  a = TDict (pre ++ (k, c) :: post) \/ a = TClass (pre ++ (k, c) :: post) ->
  (forall k' c', In (k', c') pre ->
     exists st, create_schema_object_from_annotation c' = Ok st) ->
  create_schema_object_from_annotation c = Raise e ->
  create_schema_object_from_annotation a = Raise e.
Proof.
  intros Ha Hpre Hc.
  assert (Hd : create_schema_object_from_annotation
                 (TDict (pre ++ (k, c) :: post))
               = create_schema_object_from_annotation a)
    by (destruct Ha as [-> | ->]; reflexivity).
  rewrite <- Hd.
  assert (Hloop : record_loop create_schema_object_from_annotation
                    (pre ++ (k, c) :: post) [] [] false = Raise e).
  { rewrite record_loop_app.
    destruct (record_loop_spec create_schema_object_from_annotation
                pre [] [] false) as (props & -> & _).
    { intros [k' c'] Hin. eapply Hpre; eassumption. }
    cbn [bind fst snd record_loop]. now rewrite Hc. }
  destruct pre as [|[k0 c0] pre]; cbn [app] in *;
    rewrite compile_record, Hloop; reflexivity.
Qed.

Lemma record_first_failure_witness :
  create_schema_object_from_annotation
    (TDict ([("a", TPrim Pstr)]
            ++ ("b", TUnion [TLiteral [VStr "x"]; TNone]) :: [("c", TNone)]))
  = Raise (KeyError "type").
Proof.
  apply (@record_first_failure [("a", TPrim Pstr)] "b"
           (TUnion [TLiteral [VStr "x"]; TNone]) [("c", TNone)]).
  - left; reflexivity.
  - intros k c [H|[]]; inversion H; subst; eexists; reflexivity.
  - reflexivity.
Defined.

(** ** Unions, continued *)

Section UnionLoopCompound.

Variable rec : annotation -> result (schema * bool).

Lemma union_loop_compound x rest so req :
  scalar_or_none x = false ->
  hashable x = true ->
  union_loop rec (x :: rest) so req
  = (st <- rec x ;; union_loop rec rest (fst st) (snd st)).
Proof.
  intros Hx Hh.
  destruct x; try discriminate Hx; cbn [union_loop]; rewrite Hh;
    match goal with
    | |- context [rec ?y] => destruct (rec y) as [[so' r']|e]; reflexivity
    end.
Qed.

Lemma union_loop_nones n rest so req :
  union_loop rec (repeat TNone (S n) ++ rest) so req
  = union_loop rec rest so false.
Proof.
  revert req. induction n as [|n IH]; intros req; [reflexivity|].
  change (repeat TNone (S (S n)) ++ rest)
    with (TNone :: (repeat TNone (S n) ++ rest)).
  cbn [union_loop]. apply IH.
Qed.

(** Without a [type] entry, the rest of the loop and lines 65-66 cannot
    succeed. *)
Lemma union_loop_without_type post :
  forall so req,
    contains so "type" = false ->
    forallb scalar_or_none post = true ->
    (st <- union_loop rec post so req ;;
     schema_object' <- union_collapse (fst st) ;;
     Ok (schema_object', snd st))
    = Raise (KeyError "type").
Proof.
  induction post as [|arg post IH]; intros so req Hso Hpost.
  - assert (Hget : getitem so "type" = Raise (KeyError "type")).
    { apply getitem_missing. intros Hin. apply contains_keys in Hin. congruence. }
    cbn [union_loop bind fst]. unfold union_collapse. now rewrite Hget.
  - cbn [forallb] in Hpost. apply andb_true_iff in Hpost.
    destruct Hpost as [Ha Hpost].
    destruct arg as [p| | | | | | | |]; try discriminate Ha; cbn [union_loop].
    + assert (Hget : getitem so "type" = Raise (KeyError "type")).
      { apply getitem_missing. intros Hin. apply contains_keys in Hin. congruence. }
      now rewrite Hget.
    + now apply IH.
Qed.

End UnionLoopCompound.

(** X6. In a union, a branch that is neither a primitive nor the absence
    marker and comes last replaces all that the branches before it did,
    provided they were gone through without raising: when the branch
    compiles to a schema whose [type] is a name such as ["object"] or
    ["array"], the union compiles to that very schema, with the [required]
    of the branch. *)
Theorem union_last_compound_replaces pre x s r t :
  branches_pass pre ->
  scalar_or_none x = false ->
  hashable x = true ->
  create_schema_object_from_annotation x = Ok (s, r) ->
  getitem s "type" = Ok (VStr t) ->
  String.length t <> 1 ->
  create_schema_object_from_annotation (TUnion (pre ++ [x])) = Ok (s, r).
Proof.
  intros [st Hpre] Hx Hh Hc Ht Hlen.
  rewrite compile_union, union_loop_app, Hpre.
  cbn [bind fst snd]. rewrite union_loop_compound by assumption.
  rewrite Hc. cbn [bind fst snd union_loop]. unfold union_collapse.
  rewrite Ht. cbn [bind len].
  destruct (Nat.eqb (String.length t) 1) eqn:E; [|reflexivity].
  apply Nat.eqb_eq in E. contradiction.
Qed.

Lemma union_last_compound_replaces_witness :
  create_schema_object_from_annotation
    (TUnion ([TNone; TPrim Pint; TList (TPrim Pstr)] ++ [TList (TPrim Pbool)]))
  = Ok ([("type", VStr "array"); ("items", VDict [("type", VStr "boolean")])],
        true).
Proof.
  eapply (@union_last_compound_replaces
            [TNone; TPrim Pint; TList (TPrim Pstr)]
            (TList (TPrim Pbool)) _ true "array");
    try reflexivity.
  - eexists. reflexivity.
  - discriminate.
Defined.

(** X7. A union in which a primitive comes after a branch that compiled
    to a schema whose [type] is a name, with nothing but absence markers
    in between, raises the [AttributeError] of [.append] on line 62,
    whatever follows, provided the branches before that branch were gone
    through without raising. *)
Theorem union_primitive_after_compound_raises pre x s r t n p post :
  branches_pass pre ->
  scalar_or_none x = false ->
  hashable x = true ->
  create_schema_object_from_annotation x = Ok (s, r) ->
  getitem s "type" = Ok (VStr t) ->
  create_schema_object_from_annotation
    (TUnion (pre ++ x :: repeat TNone n ++ TPrim p :: post))
  = Raise (AttributeError "append").
Proof.
  intros [st Hpre] Hx Hh Hc Ht.
  rewrite compile_union, union_loop_app, Hpre.
  cbn [bind fst snd]. rewrite union_loop_compound by assumption.
  rewrite Hc. cbn [bind fst snd].
  destruct n as [|n].
  - cbn [repeat app union_loop]. rewrite Ht. reflexivity.
  - rewrite union_loop_nones. cbn [union_loop]. rewrite Ht. reflexivity.
Qed.

Lemma union_primitive_after_compound_raises_witness :
  create_schema_object_from_annotation
    (TUnion ([TClass [("x", TPrim Pint)]] ++ TList (TPrim Pint)
               :: repeat TNone 1 ++ TPrim Pint :: [TOther "bytes"]))
  = Raise (AttributeError "append").
Proof.
  eapply (@union_primitive_after_compound_raises [TClass [("x", TPrim Pint)]]
           (TList (TPrim Pint)) _ true "array" 1 Pint [TOther "bytes"]);
    try reflexivity.
  eexists. reflexivity.
Defined.

(** X8. A union whose last branch other than primitives and absence
    markers compiled to a schema without a [type] entry (a [Literal], a
    class without annotations) raises [KeyError('type')], provided the
    branches before that branch were gone through without raising: this
    is the case of every [Optional[Literal[...]]]. *)
Theorem union_compound_without_type_raises pre x s r post :
  branches_pass pre ->
  scalar_or_none x = false ->
  hashable x = true ->
  create_schema_object_from_annotation x = Ok (s, r) ->
  contains s "type" = false ->
  forallb scalar_or_none post = true ->
  create_schema_object_from_annotation (TUnion (pre ++ x :: post))
  = Raise (KeyError "type").
Proof.
  intros [st Hpre] Hx Hh Hc Hs Hpost.
  rewrite compile_union, union_loop_app, Hpre.
  cbn [bind fst snd]. rewrite union_loop_compound by assumption.
  rewrite Hc. cbn [bind fst snd].
  now apply union_loop_without_type.
Qed.

Lemma union_compound_without_type_raises_witness :
  create_schema_object_from_annotation
    (TUnion ([TClass [("x", TPrim Pint)]]
             ++ TLiteral [VStr "a"; VStr "b"] :: [TNone]))
  = Raise (KeyError "type")
  /\ create_schema_object_from_annotation
       (TUnion ([] ++ TLiteral [VStr "a"; VStr "b"] :: [TNone]))
     = Raise (KeyError "type")
  /\ create_schema_object_from_annotation
       (TUnion ([TPrim Pint] ++ TClass [] :: [TNone; TPrim Pstr]))
     = Raise (KeyError "type").
Proof.
  split; [|split].
  - eapply (@union_compound_without_type_raises [TClass [("x", TPrim Pint)]]
             (TLiteral [VStr "a"; VStr "b"]) _ true [TNone]);
      try reflexivity.
    eexists. reflexivity.
  - eapply (@union_compound_without_type_raises []
             (TLiteral [VStr "a"; VStr "b"]) _ true [TNone]);
      try reflexivity.
    eexists. reflexivity.
  - eapply (@union_compound_without_type_raises [TPrim Pint]
             (TClass []) _ false [TNone; TPrim Pstr]);
      try reflexivity.
    eexists. reflexivity.
Defined.

(** ** Annotated, continued *)

Lemma compile_annotated_start base meta :
  create_schema_object_from_annotation (TAnnotated base meta)
  = (st <- annotated_start base ;;
     Ok (annotated_loop meta (fst st) (snd st))).
Proof.
  unfold annotated_start.
  destruct base; cbn [create_schema_object_from_annotation bind fst snd];
    try reflexivity;
    match goal with
    | |- context [if ?b then _ else _] => destruct b; [|reflexivity]
    | _ => idtac
    end;
    match goal with
    | |- bind ?x _ = bind ?x _ => destruct x as [[so r]|e]; reflexivity
    end.
Qed.

Lemma annotated_loop_neutral m :
  forall so r,
    ~ In "required" (keys m) -> ~ In "default" (keys m) ->
    snd (annotated_loop m so r) = r.
Proof.
  induction m as [|[key v] m IH]; intros so r Hr Hd; [reflexivity|].
  cbn [annotated_loop].
  destruct (String.eqb key "required") eqn:E1.
  - apply String.eqb_eq in E1. subst key. exfalso. apply Hr. now left.
  - destruct (String.eqb key "default") eqn:E2.
    + apply String.eqb_eq in E2. subst key. exfalso. apply Hd. now left.
    + apply IH; intros Hin; [apply Hr | apply Hd]; now right.
Qed.

Lemma annotated_loop_untouched m :
  forall so r k,
    k = "required" \/ ~ In k (keys m) ->
    getitem (fst (annotated_loop m so r)) k = getitem so k.
Proof.
  induction m as [|[key v] m IH]; intros so r k Hk; [reflexivity|].
  cbn [annotated_loop].
  destruct (String.eqb key "required") eqn:E.
  - apply IH. destruct Hk as [Hk|Hk]; [now left | right].
    intros Hin. apply Hk. now right.
  - rewrite IH.
    + apply getitem_setitem_other. apply String.eqb_neq in E.
      destruct Hk as [->|Hk]; [assumption|].
      intros <-. apply Hk. now left.
    + destruct Hk as [Hk|Hk]; [now left | right].
      intros Hin. apply Hk. now right.
Qed.

Lemma annotated_loop_copies m :
  forall so r k v,
    NoDup (keys m) -> In (k, v) m -> k <> "required" ->
    getitem (fst (annotated_loop m so r)) k = Ok v.
Proof.
  induction m as [|[key w] m IH]; intros so r k v Hnd Hin Hk; [destruct Hin|].
  unfold keys in Hnd. cbn [map fst] in Hnd.
  inversion Hnd as [|? ? Hnotin Hnd']; subst.
  cbn [annotated_loop].
  destruct (String.eqb key "required") eqn:E.
  - apply String.eqb_eq in E. subst key.
    destruct Hin as [Hin|Hin]; [congruence|]. now apply IH.
  - destruct Hin as [Hin|Hin].
    + inversion Hin; subst.
      rewrite annotated_loop_untouched by (right; exact Hnotin).
      apply getitem_setitem_same.
    + now apply IH.
Qed.

(** X9. What an [Annotated] returns as [required]: with a primitive base
    and no [required] key it is [False] (although the bare primitive is
    required); with metadata that has neither a [required] nor a [default]
    key it is what the base gave; and a [required] key after which neither
    key comes again decides, by the truth value of its value. *)
Theorem annotated_required_rules :
  (forall p meta,
     ~ In "required" (keys meta) ->
     exists s,
       create_schema_object_from_annotation (TAnnotated (TPrim p) meta)
       = Ok (s, false))
  /\ (forall base meta s0 r0,
        annotated_start base = Ok (s0, r0) ->
        ~ In "required" (keys meta) -> ~ In "default" (keys meta) ->
        exists s,
          create_schema_object_from_annotation (TAnnotated base meta)
          = Ok (s, r0))
  /\ (forall base m1 v m2 st,
        annotated_start base = Ok st ->
        ~ In "required" (keys m2) -> ~ In "default" (keys m2) ->
        exists s,
          create_schema_object_from_annotation
            (TAnnotated base (m1 ++ ("required", v) :: m2))
          = Ok (s, truthy v)).
Proof.
  split; [|split].
  - intros p meta Hr. rewrite compile_annotated_start.
    cbn [annotated_start bind fst snd].
    eexists. rewrite (surjective_pairing (annotated_loop _ _ _)).
    now rewrite annotated_loop_no_required.
  - intros base meta s0 r0 Hs Hr Hd. rewrite compile_annotated_start, Hs.
    cbn [bind fst snd].
    eexists. rewrite (surjective_pairing (annotated_loop _ _ _)).
    now rewrite annotated_loop_neutral.
  - intros base m1 v m2 [s0 r0] Hs Hr Hd. rewrite compile_annotated_start, Hs.
    cbn [bind fst snd]. rewrite annotated_loop_app.
    cbn [annotated_loop String.eqb Ascii.eqb Bool.eqb].
    eexists. rewrite (surjective_pairing (annotated_loop m2 _ _)).
    now rewrite annotated_loop_neutral.
Qed.

Lemma annotated_required_rules_witness :
  (exists s,
     create_schema_object_from_annotation
       (TAnnotated (TPrim Pint) [("description", VStr "a count")])
     = Ok (s, false))
  /\ (exists s,
        create_schema_object_from_annotation
          (TAnnotated (TList (TPrim Pint)) [("minItems", VInt 1)])
        = Ok (s, true))
  /\ (exists s,
        create_schema_object_from_annotation
          (TAnnotated (TPrim Pint)
             ([("default", VInt 0)] ++ ("required", VStr "yes")
                :: [("minimum", VInt 0)]))
        = Ok (s, truthy (VStr "yes"))).
Proof.
  destruct annotated_required_rules as (Ha & Hb & Hc).
  split; [|split].
  - apply Ha. simpl. intuition discriminate.
  - eapply Hb; [reflexivity | |]; simpl; intuition discriminate.
  - eapply Hc; [reflexivity | |]; simpl; intuition discriminate.
Defined.

(** X10. The schema of an [Annotated] is the schema its base gave,
    overwritten by the metadata: every key of the metadata other than
    [required] is bound to its declared value, every other key is as the
    base left it, and the [required] entry of the metadata is never written
    into the schema. *)
Theorem annotated_schema_overrides base meta s0 r0 :
  annotated_start base = Ok (s0, r0) ->
  NoDup (keys meta) ->
  exists s r,
    create_schema_object_from_annotation (TAnnotated base meta) = Ok (s, r)
    /\ (forall k v, In (k, v) meta -> k <> "required" -> getitem s k = Ok v)
    /\ (forall k, ~ In k (keys meta) -> getitem s k = getitem s0 k)
    /\ getitem s "required" = getitem s0 "required".
Proof.
  intros Hs Hnd. rewrite compile_annotated_start, Hs. cbn [bind fst snd].
  exists (fst (annotated_loop meta s0 r0)), (snd (annotated_loop meta s0 r0)).
  split; [now rewrite <- surjective_pairing|]. split; [|split].
  - intros k v Hin Hk. now apply annotated_loop_copies.
  - intros k Hk. apply annotated_loop_untouched. now right.
  - apply annotated_loop_untouched. now left.
Qed.

Lemma annotated_schema_overrides_witness :
  exists s r,
    create_schema_object_from_annotation
      (TAnnotated (TPrim Pstr)
         [("format", VStr "date"); ("required", VBool true);
          ("type", VStr "text")])
    = Ok (s, r)
    /\ (forall k v,
          In (k, v) [("format", VStr "date"); ("required", VBool true);
                     ("type", VStr "text")] ->
          k <> "required" -> getitem s k = Ok v)
    /\ (forall k,
          ~ In k (keys [("format", VStr "date"); ("required", VBool true);
                        ("type", VStr "text")]) ->
          getitem s k = getitem [("type", VStr "string")] k)
    /\ getitem s "required" = getitem [("type", VStr "string")] "required".
Proof.
  apply (@annotated_schema_overrides (TPrim Pstr) _ _ false).
  - reflexivity.
  - repeat constructor; simpl; intuition discriminate.
Defined.

(** X11. Line 39 hashes the base of an [Annotated]: a base that has an
    [Annotated] inside, such as [List[Annotated[...]]], has no hash, so the
    outer [Annotated] raises [TypeError], although the inner [Annotated]
    and the list around it compile on their own. *)
Theorem annotated_unhashable_base base meta meta' st :
  create_schema_object_from_annotation (TAnnotated base meta) = Ok st ->
  create_schema_object_from_annotation (TList (TAnnotated base meta))
  = Ok ([("type", VStr "array"); ("items", VDict (fst st))], snd st)
  /\ create_schema_object_from_annotation
       (TAnnotated (TList (TAnnotated base meta)) meta')
     = Raise unhashable.
Proof.
  intros Hc. split.
  - change (create_schema_object_from_annotation (TList (TAnnotated base meta)))
      with ('(items, required) <-
              create_schema_object_from_annotation (TAnnotated base meta) ;;
            Ok ([("type", VStr "array"); ("items", VDict items)], required)).
    rewrite Hc. now destruct st.
  - rewrite compile_annotated_start. reflexivity.
Qed.

Lemma annotated_unhashable_base_witness :
  create_schema_object_from_annotation
    (TList (TAnnotated (TPrim Pint) [("minimum", VInt 0)]))
  = Ok ([("type", VStr "array");
         ("items", VDict [("type", VStr "number"); ("minimum", VInt 0)])],
        false)
  /\ create_schema_object_from_annotation
       (TAnnotated (TList (TAnnotated (TPrim Pint) [("minimum", VInt 0)]))
          [("description", VStr "sizes")])
     = Raise unhashable.
Proof.
  apply (@annotated_unhashable_base (TPrim Pint) [("minimum", VInt 0)]
           [("description", VStr "sizes")]
           ([("type", VStr "number"); ("minimum", VInt 0)], false)).
  reflexivity.
Defined.

(** ** The arguments schema *)

Section DictSplit.

Variable V : Type.
Implicit Types (d : pydict V) (k : string) (v : V).

Lemma getitem_app_fresh d1 d2 k :
  ~ In k (keys d1) -> getitem (d1 ++ d2) k = getitem d2 k.
Proof.
  unfold keys. induction d1 as [|[k0 w] d1 IH]; simpl; [reflexivity|].
  intros Hnotin. destruct (String.eqb k0 k) eqn:E.
  - apply String.eqb_eq in E. tauto.
  - apply IH. tauto.
Qed.

Lemma setitem_app_fresh d1 d2 k v :
  ~ In k (keys d1) -> setitem (d1 ++ d2) k v = d1 ++ setitem d2 k v.
Proof.
  unfold keys. induction d1 as [|[k0 w] d1 IH]; simpl; [reflexivity|].
  intros Hnotin. destruct (String.eqb k0 k) eqn:E.
  - apply String.eqb_eq in E. tauto.
  - rewrite IH; tauto.
Qed.

End DictSplit.

Lemma existsb_is_str_in n l : In n l -> existsb (is_str n) (map VStr l) = true.
Proof.
  induction l as [|x l IH]; simpl; [tauto|].
  intros [->|Hin]; [now rewrite String.eqb_refl|].
  rewrite IH by assumption. apply orb_true_r.
Qed.

Lemma existsb_is_str_notin n l :
  ~ In n l -> existsb (is_str n) (map VStr l) = false.
Proof.
  induction l as [|x l IH]; simpl; [reflexivity|].
  intros Hnotin. destruct (String.eqb x n) eqn:E.
  - apply String.eqb_eq in E. tauto.
  - apply IH. tauto.
Qed.

Lemma remove_first_split n l1 l2 :
  ~ In n l1 ->
  remove_first n (map VStr (l1 ++ n :: l2)) = map VStr (l1 ++ l2).
Proof.
  induction l1 as [|x l1 IH]; simpl.
  - now rewrite String.eqb_refl.
  - intros Hnotin. destruct (String.eqb x n) eqn:E.
    + apply String.eqb_eq in E. tauto.
    + rewrite IH; tauto.
Qed.

Lemma filter_names_in (f : string * parameter -> bool) ps n :
  In n (map fst (filter f ps)) -> In n (keys ps).
Proof.
  unfold keys. rewrite !in_map_iff. intros (np & Hn & Hin).
  apply filter_In in Hin. exists np. tauto.
Qed.

Lemma default_values_of_spec ps :
  forall acc,
    NoDup (keys acc ++ keys ps) ->
    default_values_of ps acc = acc ++ defaults_of ps.
Proof.
  induction ps as [|[name p] ps IH]; intros acc Hnd.
  - simpl. now rewrite app_nil_r.
  - cbn [default_values_of defaults_of]. unfold keys in Hnd. cbn [map fst] in Hnd.
    destruct (default p) as [d|].
    + assert (Hfresh : ~ In name (keys acc)).
      { apply NoDup_remove_2 in Hnd. intros Hin. apply Hnd.
        apply in_or_app. now left. }
      rewrite setitem_fresh by assumption. rewrite IH.
      * now rewrite <- app_assoc.
      * rewrite keys_app. unfold keys. rewrite <- app_assoc. exact Hnd.
    + apply IH. apply NoDup_remove_1 in Hnd. exact Hnd.
Qed.

Lemma params_properties ps :
  map (compiled_property create_schema_object_from_annotation) (params_of ps)
  = map parameter_property ps.
Proof. unfold params_of. rewrite map_map. reflexivity. Qed.

Lemma params_required_names ps :
  required_names create_schema_object_from_annotation (params_of ps)
  = map fst (filter parameter_required ps).
Proof.
  unfold required_names, params_of.
  induction ps as [|[n p] ps IH]; [reflexivity|].
  cbn [map filter]. unfold field_required at 1, parameter_required at 1.
  cbn [fst snd].
  destruct (verdict _); cbn [map fst]; now rewrite IH.
Qed.

Lemma params_keys ps : map fst (params_of ps) = keys ps.
Proof. unfold params_of, keys. now rewrite map_map. Qed.

Lemma inject_default_split (props1 props2 : dict) n cs reqs d :
  ~ In n (keys props1) ->
  inject_default n d
    (object_schema (props1 ++ (n, VDict cs) :: props2) reqs)
  = Ok (object_schema
          (props1 ++ (n, VDict (setitem cs "default" d)) :: props2) reqs).
Proof.
  intros Hfresh. unfold inject_default, object_schema.
  cbn [getitem String.eqb Ascii.eqb Bool.eqb bind as_dict].
  rewrite getitem_app_fresh by assumption.
  cbn [getitem]. rewrite String.eqb_refl. cbn [bind as_dict].
  rewrite setitem_app_fresh by assumption.
  cbn [setitem]. rewrite String.eqb_refl.
  cbn [setitem String.eqb Ascii.eqb Bool.eqb]. reflexivity.
Qed.

Lemma drop_required_present props l1 l2 n :
  ~ In n l1 ->
  drop_required n (object_schema props (map VStr (l1 ++ n :: l2)))
  = Ok (object_schema props (map VStr (l1 ++ l2))).
Proof.
  intros Hfresh. unfold drop_required, object_schema.
  cbn [getitem String.eqb Ascii.eqb Bool.eqb bind contains_str].
  rewrite existsb_is_str_in by (apply in_or_app; right; now left).
  cbn [remove bind]. rewrite remove_first_split by assumption.
  cbn [setitem String.eqb Ascii.eqb Bool.eqb]. reflexivity.
Qed.

Lemma drop_required_absent props l n :
  ~ In n l ->
  drop_required n (object_schema props (map VStr l))
  = Ok (object_schema props (map VStr l)).
Proof.
  intros Hfresh. unfold drop_required, object_schema.
  cbn [getitem String.eqb Ascii.eqb Bool.eqb bind contains_str].
  rewrite existsb_is_str_notin by assumption. reflexivity.
Qed.

(** Lines 106-109, parameter by parameter: [ps1] has been gone through,
    [ps2] is still to come. *)
Lemma patch_defaults_spec ps2 :
  forall ps1,
    NoDup (keys (ps1 ++ ps2)) ->
    patch_defaults (defaults_of ps2)
      (object_schema
         (map patched_property ps1 ++ map parameter_property ps2)
         (map VStr (map fst (filter mandatory ps1)
                    ++ map fst (filter parameter_required ps2))))
    = (Ok tt,
       object_schema (map patched_property (ps1 ++ ps2))
         (map VStr (map fst (filter mandatory (ps1 ++ ps2))))).
Proof.
  induction ps2 as [|[n p] ps2 IH]; intros ps1 Hnd.
  - cbn [defaults_of patch_defaults map filter]. now rewrite !app_nil_r.
  - assert (Hfresh : ~ In n (keys ps1)).
    { rewrite keys_app in Hnd. unfold keys in Hnd. cbn [map fst] in Hnd.
      apply NoDup_remove_2 in Hnd. intros Hin. apply Hnd.
      apply in_or_app. now left. }
    assert (Hfresh2 : ~ In n (keys ps2)).
    { rewrite keys_app in Hnd. unfold keys in Hnd. cbn [map fst] in Hnd.
      apply NoDup_remove_2 in Hnd. intros Hin. apply Hnd.
      apply in_or_app. now right. }
    assert (Hm1 : ~ In n (map fst (filter mandatory ps1))).
    { intros Hin. apply Hfresh. eapply filter_names_in; eassumption. }
    assert (Hm2 : ~ In n (map fst (filter parameter_required ps2))).
    { intros Hin. apply Hfresh2. eapply filter_names_in; eassumption. }
    assert (Hp1 : ~ In n (keys (map patched_property ps1))).
    { unfold keys. rewrite map_map. exact Hfresh. }
    assert (Hnd' : NoDup (keys ((ps1 ++ [(n, p)]) ++ ps2)))
      by (rewrite <- app_assoc; exact Hnd).
    specialize (IH (ps1 ++ [(n, p)]) Hnd').
    replace ((ps1 ++ [(n, p)]) ++ ps2) with (ps1 ++ (n, p) :: ps2) in IH
      by (rewrite <- app_assoc; reflexivity).
    rewrite <- IH. clear IH.
    set (cs := schema_of (create_schema_object_from_annotation (annotation_ p))).
    assert (Eprops :
      map patched_property (ps1 ++ [(n, p)]) ++ map parameter_property ps2
      = map patched_property ps1
        ++ (n, VDict (with_default cs (default p))) :: map parameter_property ps2).
    { rewrite map_app, <- app_assoc. reflexivity. }
    assert (Ereq :
      map fst (filter mandatory (ps1 ++ [(n, p)]))
      = map fst (filter mandatory ps1)
        ++ (if mandatory (n, p) then [n] else [])).
    { rewrite filter_app, map_app. cbn [filter].
      now destruct (mandatory (n, p)). }
    assert (Emand :
      mandatory (n, p)
      = match default p with
        | Some _ => false
        | None => parameter_required (n, p)
        end) by reflexivity.
    rewrite Eprops, Ereq, Emand. clear Eprops Ereq Emand.
    cbn [defaults_of map filter].
    change (parameter_property (n, p)) with (n, VDict cs).
    destruct (default p) as [d|].
    + cbn [with_default]. rewrite app_nil_r.
      cbn [patch_defaults]. unfold mbind, modify.
      rewrite inject_default_split by assumption.
      destruct (parameter_required (n, p)).
      * cbn [map fst]. rewrite drop_required_present by assumption.
        reflexivity.
      * rewrite drop_required_absent
          by (intros Hin; apply in_app_or in Hin; tauto).
        reflexivity.
    + cbn [with_default].
      destruct (parameter_required (n, p)); cbn [map fst];
        rewrite <- ?app_assoc; cbn [app]; rewrite ?app_nil_r; reflexivity.
Qed.

Lemma compile_params_exact ps :
  ps <> [] ->
  NoDup (keys ps) ->
  (forall n p, In (n, p) ps ->
     exists st, create_schema_object_from_annotation (annotation_ p) = Ok st) ->
  exists required,
    create_schema_object_from_annotation (TDict (params_of ps))
    = Ok (object_schema (map parameter_property ps)
            (map VStr (map fst (filter parameter_required ps))),
          required).
Proof.
  intros Hne Hnd Hall.
  destruct (params_of ps) as [|[key child] fields] eqn:E.
  { destruct ps; [congruence | discriminate E]. }
  rewrite compile_record, <- E, record_loop_exact.
  - rewrite params_properties, params_required_names. cbn [bind app].
    eexists. reflexivity.
  - cbn [keys map app]. rewrite params_keys. exact Hnd.
  - intros [k c] Hin. unfold params_of in Hin. apply in_map_iff in Hin.
    destruct Hin as ([n p] & Heq & Hin). inversion Heq; subst.
    cbn [snd]. eapply Hall; eassumption.
Qed.

Lemma args_schema_derivation self :
  _args_json_schema self = None ->
  NoDup (keys (parameters (function self))) ->
  (forall n p, In (n, p) (parameters (function self)) ->
     exists st, create_schema_object_from_annotation (annotation_ p) = Ok st) ->
  let ps := parameters (function self) in
  let s :=
    match ps with
    | [] => []
    | _ :: _ =>
        object_schema (map patched_property ps)
          (map VStr (map fst (filter mandatory ps)))
    end in
  get_args_json_schema self = (Ok s, set_args_json_schema self (Some s)).
Proof.
  intros Hcache Hnd Hall ps s. unfold get_args_json_schema. rewrite Hcache.
  fold ps. destruct ps as [|np ps'] eqn:Eps.
  - reflexivity.
  - rewrite <- Eps in *.
    destruct (@compile_params_exact ps) as [required ->];
      [rewrite Eps; discriminate | assumption | assumption |].
    rewrite default_values_of_spec by exact Hnd. cbn [app].
    pose proof (@patch_defaults_spec ps [] Hnd) as Hpatch.
    cbn [map filter app] in Hpatch. rewrite Hpatch.
    subst s. rewrite Eps. reflexivity.
Qed.

Lemma has_required_object props (names : list string) :
  has_required (object_schema props (map VStr names))
  = Ok (match names with [] => false | _ :: _ => true end).
Proof. destruct names; reflexivity. Qed.

Lemma filter_nonempty {A : Type} (f : A -> bool) (l : list A) :
  match map (fun x => x) (filter f l) with [] => false | _ :: _ => true end
  = existsb f l.
Proof.
  induction l as [|x l IH]; [reflexivity|].
  cbn [filter existsb]. destruct (f x); [reflexivity | exact IH].
Qed.

(** X12. The first call of [get_args_json_schema] on a descriptor whose
    parameters have distinct names and annotations that compile returns,
    and stores, the object schema whose [properties] are the parameters in
    signature order, each bound to the compiled schema of its annotation
    with [default] set to the declared default when there is one, and whose
    [required] lists the parameters that have no default and compiled as
    required; without parameters it is the empty schema. *)
Theorem args_schema_exact self :
  _args_json_schema self = None ->
  NoDup (keys (parameters (function self))) ->
  (forall n p, In (n, p) (parameters (function self)) ->
     exists st, create_schema_object_from_annotation (annotation_ p) = Ok st) ->
  let ps := parameters (function self) in
  let s :=
    match ps with
    | [] => []
    | _ :: _ =>
        [("type", VStr "object");
         ("properties", VDict (map patched_property ps));
         ("required", VList (map VStr (map fst (filter mandatory ps))))]
    end in
  fst (get_args_json_schema self) = Ok s
  /\ _args_json_schema (snd (get_args_json_schema self)) = Some s.
Proof.
  intros Hcache Hnd Hall ps s.
  rewrite (args_schema_derivation self Hcache Hnd Hall). split; reflexivity.
Qed.

Lemma args_schema_exact_witness :
  fst (get_args_json_schema
         (init_descriptor
            (Callable "resize"
               [("name", mk_parameter (TPrim Pstr) None);
                ("width", mk_parameter (TUnion [TPrim Pint; TNone]) None);
                ("unit",
                 mk_parameter
                   (TAnnotated (TLiteral [VStr "px"; VStr "em"])
                      [("default", VStr "em")])
                   (Some (VStr "px")))]
               (TPrim Pbool))
            "resize a thing" true true))
  = Ok [("type", VStr "object");
        ("properties",
         VDict [("name", VDict [("type", VStr "string")]);
                ("width", VDict [("type", VStr "number")]);
                ("unit", VDict [("enum", VList [VStr "px"; VStr "em"]);
                                ("default", VStr "px")])]);
        ("required", VList [VStr "name"])].
Proof.
  apply (@args_schema_exact
           (init_descriptor
              (Callable "resize"
                 [("name", mk_parameter (TPrim Pstr) None);
                  ("width", mk_parameter (TUnion [TPrim Pint; TNone]) None);
                  ("unit",
                   mk_parameter
                     (TAnnotated (TLiteral [VStr "px"; VStr "em"])
                        [("default", VStr "em")])
                     (Some (VStr "px")))]
                 (TPrim Pbool))
              "resize a thing" true true)).
  - reflexivity.
  - repeat constructor; simpl; intuition discriminate.
  - intros n p [H|[H|[H|[]]]]; inversion H; subst; eexists; reflexivity.
Defined.

(** X13. On such a descriptor [has_args] returns [True] exactly when some
    parameter has no default and an annotation that compiled as required;
    so it returns [False] for a function whose parameters all have
    defaults, and for one without parameters. *)
Theorem has_args_exact self :
  _args_json_schema self = None ->
  NoDup (keys (parameters (function self))) ->
  (forall n p, In (n, p) (parameters (function self)) ->
     exists st, create_schema_object_from_annotation (annotation_ p) = Ok st) ->
  fst (has_args self) = Ok (existsb mandatory (parameters (function self)))
  /\ ((forall n p, In (n, p) (parameters (function self)) ->
         default p <> None) ->
      fst (has_args self) = Ok false).
Proof.
  intros Hcache Hnd Hall.
  assert (Hexact : fst (has_args self)
                   = Ok (existsb mandatory (parameters (function self)))).
  { rewrite (has_args_spec _ (args_schema_derivation self Hcache Hnd Hall)).
    cbn [fst]. destruct (parameters (function self)) as [|np ps] eqn:Eps;
      [reflexivity|].
    rewrite has_required_object. f_equal.
    rewrite <- (filter_nonempty mandatory (np :: ps)).
    rewrite map_id. now destruct (filter mandatory (np :: ps)). }
  split; [exact Hexact|].
  intros Hdefaults. rewrite Hexact. f_equal.
  clear Hexact Hnd Hall Hcache.
  induction (parameters (function self)) as [|[n p] ps IH]; [reflexivity|].
  cbn [existsb]. rewrite IH.
  - unfold mandatory. cbn [snd].
    destruct (default p) eqn:Hd; [reflexivity|].
    exfalso. apply (Hdefaults n p); [now left | exact Hd].
  - intros n' p' Hin. apply (Hdefaults n' p'). now right.
Qed.

Lemma has_args_exact_witness :
  fst (has_args
         (init_descriptor
            (Callable "find"
               [("pattern", mk_parameter (TUnion [TPrim Pstr; TNone]) None);
                ("limit", mk_parameter (TPrim Pint) (Some (VInt 10)))]
               (TList (TPrim Pstr)))
            "" true true))
  = Ok false
  /\ fst (has_args (init_descriptor scale "" true true)) = Ok false.
Proof.
  split.
  - refine (proj1 (@has_args_exact
                     (init_descriptor
                        (Callable "find"
                           [("pattern",
                             mk_parameter (TUnion [TPrim Pstr; TNone]) None);
                            ("limit",
                             mk_parameter (TPrim Pint) (Some (VInt 10)))]
                           (TList (TPrim Pstr)))
                        "" true true) eq_refl _ _)).
    + repeat constructor; simpl; intuition discriminate.
    + intros n p [H|[H|[]]]; inversion H; subst; eexists; reflexivity.
  - refine (proj2 (@has_args_exact (init_descriptor scale "" true true)
                     eq_refl _ _) _).
    + repeat constructor; simpl; intuition discriminate.
    + intros n p [H|[]]; inversion H; subst; eexists; reflexivity.
    + intros n p [H|[]]; inversion H; subst. discriminate.
Defined.

(** X14. [get_args_json_schema] derives the schema once: after a call that
    returned, the cache holds the returned schema, nothing else of the
    descriptor has changed, and every later call returns the same schema
    and changes nothing.  A derivation that fails because the parameters do
    not compile stores nothing, so the next call fails in the same way. *)
Theorem args_schema_cached self :
  (forall s self1,
     get_args_json_schema self = (Ok s, self1) ->
     self1 = set_args_json_schema self (Some s)
     /\ get_args_json_schema self1 = (Ok s, self1))
  /\ (forall e,
        _args_json_schema self = None ->
        create_schema_object_from_annotation
          (TDict (params_of (parameters (function self)))) = Raise e ->
        get_args_json_schema self = (Raise e, self)).
Proof.
  split.
  - intros s self1 H. split; [|exact (proj1 (get_args_json_schema_cached _ H))].
    revert H. unfold get_args_json_schema.
    destruct (_args_json_schema self) as [s0|] eqn:Hcache.
    + intros H. inversion H; subst. destruct self1. simpl in *. now subst.
    + destruct (create_schema_object_from_annotation _) as [[s0 r0]|e];
        [|discriminate].
      destruct (patch_defaults _ s0) as [[u|e] s'];
        intros H; inversion H; subst. reflexivity.
  - intros e Hcache Hc. unfold get_args_json_schema. now rewrite Hcache, Hc.
Qed.

Lemma args_schema_cached_witness :
  get_args_json_schema
    (set_args_json_schema (init_descriptor add "" true false) (Some add_schema))
  = (Ok add_schema,
     set_args_json_schema (init_descriptor add "" true false) (Some add_schema))
  /\ get_args_json_schema
       (init_descriptor
          (Callable "f" [("x", mk_parameter (TOther "bytes") None)] TNone)
          "" true true)
     = (Raise unsupported,
        init_descriptor
          (Callable "f" [("x", mk_parameter (TOther "bytes") None)] TNone)
          "" true true).
Proof.
  split.
  - apply (proj1 (args_schema_cached (init_descriptor add "" true false))
             add_schema).
    reflexivity.
  - apply (proj2 (args_schema_cached
                    (init_descriptor
                       (Callable "f" [("x", mk_parameter (TOther "bytes") None)]
                          TNone)
                       "" true true)));
      reflexivity.
Defined.

(** X15. The two caches of a descriptor do not interfere: asking for the
    return schema and then for the arguments schema gives the same two
    outcomes, and leaves the same descriptor, as asking in the other
    order. *)
Theorem schema_getters_commute self :
  let a1 := get_args_json_schema self in
  let r1 := get_return_value_json_schema (snd a1) in
  let r2 := get_return_value_json_schema self in
  let a2 := get_args_json_schema (snd r2) in
  fst a1 = fst a2 /\ fst r1 = fst r2 /\ snd r1 = snd a2.
Proof.
  destruct self as [f descr v c ac rc]. cbv zeta.
  destruct (create_schema_object_from_annotation
              (TDict (params_of (parameters f)))) as [[sa ra]|ea] eqn:Ea;
    destruct (create_schema_object_from_annotation (return_annotation f))
      as [[sr rr]|er] eqn:Er;
    try (destruct (patch_defaults (default_values_of (parameters f) []) sa)
           as [[u|e] s'] eqn:Ep);
    destruct ac as [ca|], rc as [cr|];
    unfold get_args_json_schema, get_return_value_json_schema,
      set_args_json_schema, set_return_value_json_schema;
    repeat (cbn [fst snd function _args_json_schema _return_value_json_schema
                 description validate_schema command_line_function];
            rewrite ?Ea, ?Er, ?Ep);
    auto.
Qed.

(** ** The command line *)

Lemma getitem_map (A B : Type) (f : A -> B) (d : pydict A) k :
  getitem (map (fun kv => (fst kv, f (snd kv))) d) k
  = match getitem d k with
    | Ok v => Ok (f v)
    | Raise e => Raise e
    end.
Proof.
  induction d as [|[k0 v] d IH]; [reflexivity|].
  cbn [map getitem fst snd]. now destruct (String.eqb k0 k).
Qed.

Lemma keys_map (A B : Type) (f : A -> B) (d : pydict A) :
  keys (map (fun kv => (fst kv, f (snd kv))) d) = keys d.
Proof. unfold keys. rewrite map_map. reflexivity. Qed.

(** Lines 152-173 for the names of [todo], in a registry whose functions
    before them, [done], have been gone through, and with distinct names
    up to there. *)
Lemma build_parsers_spec todo :
  forall done rest parsers c cs,
    NoDup (keys (done ++ todo)) ->
    NoDup (keys parsers ++ keys todo) ->
    (forall n self, In (n, self) todo -> exists b, fst (has_args self) = Ok b) ->
    build_parsers (keys todo) parsers c
      (World (map warmed done ++ todo ++ rest) cs)
    = (Ok (parsers ++ map parser_of todo, last (map cells_of todo) c),
       World (map warmed (done ++ todo) ++ rest) cs).
Proof.
  induction todo as [|[n self] todo IH];
    intros done rest parsers c cs Hnd Hp Hall.
  - cbn [keys map build_parsers last app]. unfold mret. now rewrite !app_nil_r.
  - destruct (Hall n self (or_introl eq_refl)) as [b Hb].
    destruct (has_args_ok _ Hb) as (s & self1 & Hs & Hr).
    assert (Hfresh : ~ In n (keys (map warmed done))).
    { unfold warmed. rewrite keys_map. rewrite keys_app in Hnd.
      unfold keys in Hnd. cbn [map fst] in Hnd.
      apply NoDup_remove_2 in Hnd. intros Hin. apply Hnd.
      apply in_or_app. now left. }
    assert (Hget : get_function_descriptor
                     (map warmed done ++ ((n, self) :: todo) ++ rest) n
                   = Ok self).
    { unfold get_function_descriptor. rewrite getitem_app_fresh by assumption.
      cbn [getitem app]. now rewrite String.eqb_refl. }
    assert (Hset : setitem (map warmed done ++ ((n, self) :: todo) ++ rest) n self1
                   = map warmed (done ++ [(n, self)]) ++ todo ++ rest).
    { rewrite setitem_app_fresh by assumption. cbn [setitem app].
      rewrite String.eqb_refl, map_app, <- app_assoc. cbn [map app].
      unfold warmed at 3, warm. cbn [fst snd]. now rewrite Hs. }
    assert (Hget1 : get_function_descriptor
                      (map warmed (done ++ [(n, self)]) ++ todo ++ rest) n
                    = Ok self1).
    { rewrite <- Hset. apply getitem_setitem_same. }
    cbn [keys map fst build_parsers]. unfold mbind.
    rewrite (@on_descriptor_get _ cs n self Hget).
    rewrite (@on_descriptor_spec _ get_args_json_schema _ cs n self Hget).
    rewrite Hs. cbn [fst snd]. rewrite Hset.
    rewrite (@on_descriptor_spec _ has_args _ cs n self1 Hget1).
    rewrite (has_args_spec _ (proj1 (get_args_json_schema_cached _ Hs))), Hr.
    cbn [fst snd]. rewrite (setitem_getitem_id _ _ Hget1).
    assert (Hpfresh : ~ In n (keys parsers)).
    { unfold keys in Hp. cbn [map fst] in Hp. apply NoDup_remove_2 in Hp.
      intros Hin. apply Hp. apply in_or_app. now left. }
    rewrite setitem_fresh by assumption.
    fold (keys todo). rewrite IH.
    + rewrite <- !app_assoc. cbn [app map].
      rewrite last_cons.
      assert (Hparser : parser_of (n, self) = (n, b)).
      { unfold parser_of, takes_positional. cbn [fst snd]. now rewrite Hb. }
      assert (Hcells : cells_of (n, self) = Some (self, s)).
      { unfold cells_of, args_schema_of. cbn [fst snd]. now rewrite Hs. }
      rewrite Hparser, Hcells. reflexivity.
    + rewrite <- app_assoc. exact Hnd.
    + rewrite keys_app. unfold keys in *. cbn [map fst] in *.
      rewrite <- app_assoc. exact Hp.
    + intros n' self' Hin. apply (Hall n' self'). now right.
Qed.

Lemma build_parsers_app l1 l2 :
  forall parsers c w,
    build_parsers (l1 ++ l2) parsers c w
    = match build_parsers l1 parsers c w with
      | (Ok pc, w') => build_parsers l2 (fst pc) (snd pc) w'
      | (Raise e, w') => (Raise e, w')
      end.
Proof.
  induction l1 as [|n l1 IH]; intros parsers c w; [reflexivity|].
  cbn [app build_parsers]. unfold mbind.
  destruct (on_descriptor n get w) as [[fd|e] w1]; [|reflexivity].
  destruct (on_descriptor n get_args_json_schema w1) as [[s|e] w2];
    [|reflexivity].
  destruct (on_descriptor n has_args w2) as [[b|e] w3]; [|reflexivity].
  apply IH.
Qed.

Lemma warm_function self b :
  fst (has_args self) = Ok b -> function (warm self) = function self.
Proof.
  intros Hb. destruct (has_args_ok _ Hb) as (s & self1 & Hs & _).
  unfold warm. rewrite Hs. apply (get_args_json_schema_cached _ Hs).
Qed.

Section ExecFacts.

Variable jsonschema_validate : value -> schema -> result unit.
Variable run : callable -> option dict -> result value.
Variable json_load : string -> option value.

(** [CommandLineApp.exec] on a registry with distinct names whose
    functions all have an arguments schema. *)
Lemma exec_spec (sh : Shell) cs name text :
  NoDup (keys sh) ->
  (forall n self, In (n, self) sh -> exists b, fst (has_args self) = Ok b) ->
  exec jsonschema_validate run json_load name text (World sh cs)
  = match parse_args jsonschema_validate json_load (map parser_of sh)
            (closure_cells sh) name text with
    | Raise e => (Raise e, World (map warmed sh) cs)
    | Ok function_args =>
        match get_function_descriptor sh name with
        | Raise e => (Raise e, World (map warmed sh) cs)
        | Ok self =>
            match function_args with
            | VNone =>
                (run (function self) None,
                 World (map warmed sh) (cs ++ [Call (function self) None]))
            | _ =>
                match kwargs_of function_args with
                | Ok kwargs =>
                    (run (function self) (Some kwargs),
                     World (map warmed sh)
                       (cs ++ [Call (function self) (Some kwargs)]))
                | Raise e => (Raise e, World (map warmed sh) cs)
                end
            end
        end
    end.
Proof.
  intros Hnd Hall. unfold exec, mbind. cbn [get shell].
  unfold get_function_names.
  pose proof (@build_parsers_spec sh [] [] [] None cs) as Hbp.
  cbn [map app] in Hbp. rewrite !app_nil_r in Hbp.
  rewrite Hbp; [|exact Hnd|exact Hnd|exact Hall].
  cbn [fst snd app]. fold (closure_cells sh). unfold lift at 1.
  destruct (parse_args _ _ _ _ name text) as [function_args|e]; [|reflexivity].
  unfold on_descriptor. cbn [shell calls]. unfold get_function_descriptor, warmed.
  rewrite getitem_map.
  destruct (getitem sh name) as [self|e] eqn:Hget; [|reflexivity].
  cbn [get]. rewrite (setitem_getitem_id (map _ sh) name).
  2:{ rewrite getitem_map, Hget. reflexivity. }
  assert (Hf : function (warm self) = function self).
  { destruct (Hall name self (getitem_ok_in _ _ Hget)) as [b Hb].
    exact (warm_function _ Hb). }
  rewrite Hf.
  destruct function_args; try reflexivity.
Qed.

End ExecFacts.

Lemma closure_cells_last (sh0 : Shell) ln lastfd :
  closure_cells (sh0 ++ [(ln, lastfd)])
  = Some (lastfd, args_schema_of lastfd).
Proof. unfold closure_cells. rewrite map_app. cbn [map]. apply last_last. Qed.

Lemma parser_of_registered (sh : Shell) name self :
  get_function_descriptor sh name = Ok self ->
  getitem (map parser_of sh) name = Ok (takes_positional self).
Proof.
  intros Hget. unfold parser_of. rewrite getitem_map.
  unfold get_function_descriptor in Hget. now rewrite Hget.
Qed.

Lemma parser_of_unregistered (sh : Shell) name e :
  get_function_descriptor sh name = Raise e ->
  exists e', getitem (map parser_of sh) name = Raise e'.
Proof.
  intros Hget. unfold parser_of. rewrite getitem_map.
  unfold get_function_descriptor in Hget. rewrite Hget. eauto.
Qed.

Section CommandLine.

Variable jsonschema_validate : value -> schema -> result unit.
Variable run : callable -> option dict -> result value.
Variable json_load : string -> option value.

(** X16. On the command line the payload of every function is checked
    with the [validate_schema] flag and against the arguments schema of
    the function registered last, whatever the flag and the schema of the
    function that is called: a payload that the last schema rejects ends
    in an [ArgumentTypeError] carrying the validator's message and calls
    nothing, and an object that it accepts, or any object when the last
    flag is off, is passed to the function as named arguments. *)
Theorem exec_validates_with_last_registration
    (sh0 : Shell) ln lastfd cs name self text v :
  NoDup (keys (sh0 ++ [(ln, lastfd)])) ->
  (forall n fd, In (n, fd) (sh0 ++ [(ln, lastfd)]) ->
     exists b, fst (has_args fd) = Ok b) ->
  get_function_descriptor (sh0 ++ [(ln, lastfd)]) name = Ok self ->
  json_load text = Some v ->
  let out :=
    exec jsonschema_validate run json_load name (Some text)
      (World (sh0 ++ [(ln, lastfd)]) cs) in
  (validate_schema lastfd = true ->
   forall e,
     jsonschema_validate v (args_schema_of lastfd) = Raise e ->
     fst out = Raise (ArgumentTypeError (message e)) /\ calls (snd out) = cs)
  /\ (validate_schema lastfd = false
      \/ jsonschema_validate v (args_schema_of lastfd) = Ok tt ->
      forall d, v = VDict d ->
        fst out = run (function self) (Some d)
        /\ calls (snd out) = cs ++ [Call (function self) (Some d)]).
Proof.
  intros Hnd Hall Hget Hload out. subst out.
  rewrite (@exec_spec jsonschema_validate run json_load _ cs name (Some text)
             Hnd Hall).
  unfold parse_args. rewrite (parser_of_registered _ _ Hget).
  unfold json_or_json_file. rewrite Hload, closure_cells_last, Hget.
  split.
  - intros Hv e He. rewrite Hv, He. split; reflexivity.
  - intros Hok d ->. destruct (validate_schema lastfd).
    + destruct Hok as [Hok|Hok]; [discriminate|]. rewrite Hok.
      split; reflexivity.
    + split; reflexivity.
Qed.

(** X17. A command without payload: when [has_args()] of the function is
    true its [args] argument is positional and the parser refuses the
    command, nothing being called; when it is false the function is called
    without arguments. *)
Theorem exec_without_payload (sh : Shell) cs name self b :
  NoDup (keys sh) ->
  (forall n fd, In (n, fd) sh -> exists b', fst (has_args fd) = Ok b') ->
  get_function_descriptor sh name = Ok self ->
  fst (has_args self) = Ok b ->
  let out :=
    exec jsonschema_validate run json_load name None (World sh cs) in
  (b = true ->
     (exists msg, fst out = Raise (ArgumentError msg)) /\ calls (snd out) = cs)
  /\ (b = false ->
        fst out = run (function self) None
        /\ calls (snd out) = cs ++ [Call (function self) None]).
Proof.
  intros Hnd Hall Hget Hb out. subst out.
  rewrite (@exec_spec jsonschema_validate run json_load _ cs name None Hnd Hall).
  unfold parse_args. rewrite (parser_of_registered _ _ Hget).
  unfold takes_positional. rewrite Hb, Hget. split.
  - intros ->. split; [eexists|]; reflexivity.
  - intros ->. split; reflexivity.
Qed.

(** X18. A command the parser refuses calls nothing: a name that is not
    registered ends in an [ArgumentError], and a payload that is neither
    valid JSON nor a file of valid JSON in the [ArgumentTypeError] of line
    164, whatever the function and its flags. *)
Theorem exec_refused_command (sh : Shell) cs name text :
  NoDup (keys sh) ->
  (forall n fd, In (n, fd) sh -> exists b, fst (has_args fd) = Ok b) ->
  (~ In name (get_function_names sh) ->
     (exists msg,
        fst (exec jsonschema_validate run json_load name text (World sh cs))
        = Raise (ArgumentError msg))
     /\ calls (snd (exec jsonschema_validate run json_load name text
                      (World sh cs))) = cs)
  /\ (forall t,
        In name (get_function_names sh) ->
        text = Some t ->
        json_load t = None ->
        fst (exec jsonschema_validate run json_load name text (World sh cs))
        = Raise (ArgumentTypeError "Not valid json or a not valid json file")
        /\ calls (snd (exec jsonschema_validate run json_load name text
                         (World sh cs))) = cs).
Proof.
  intros Hnd Hall.
  rewrite (@exec_spec jsonschema_validate run json_load _ cs name text Hnd Hall).
  split.
  - intros Hnotin.
    destruct (parser_of_unregistered sh name
                (getitem_missing _ _ Hnotin)) as [e' He'].
    unfold parse_args. rewrite He'. split; [eexists|]; reflexivity.
  - intros t Hin -> Hload.
    destruct (getitem_present _ _ Hin) as [self Hget].
    unfold parse_args. rewrite (parser_of_registered _ _ Hget).
    unfold json_or_json_file. rewrite Hload. split; reflexivity.
Qed.

(** X19. The command line sets up the parsers of all functions before it
    reads the command: when the arguments schema of one registered
    function cannot be derived, every command, for whatever function,
    raises the exception of that derivation and calls nothing. *)
Theorem exec_fails_on_underivable_schema
    (pre post : Shell) n fd e cs name text :
  NoDup (keys (pre ++ [(n, fd)])) ->
  (forall n' fd', In (n', fd') pre -> exists b, fst (has_args fd') = Ok b) ->
  fst (get_args_json_schema fd) = Raise e ->
  fst (exec jsonschema_validate run json_load name text
         (World (pre ++ (n, fd) :: post) cs)) = Raise e
  /\ calls (snd (exec jsonschema_validate run json_load name text
                   (World (pre ++ (n, fd) :: post) cs))) = cs.
Proof.
  intros Hnd Hall He. unfold exec, mbind. cbn [get shell].
  unfold get_function_names. rewrite keys_app.
  rewrite build_parsers_app.
  assert (Hnd1 : NoDup (keys pre)).
  { rewrite keys_app in Hnd. now apply NoDup_app_remove_r in Hnd. }
  pose proof (@build_parsers_spec pre [] ((n, fd) :: post) [] None cs) as Hbp.
  cbn [map app] in Hbp. rewrite Hbp; [|exact Hnd1|exact Hnd1|exact Hall].
  cbn [fst snd keys map build_parsers]. unfold mbind.
  assert (Hfresh : ~ In n (keys (map warmed pre))).
  { unfold warmed. rewrite keys_map. rewrite keys_app in Hnd.
    unfold keys in Hnd. cbn [map fst] in Hnd.
    intros Hin. apply NoDup_remove_2 in Hnd. apply Hnd.
    rewrite app_nil_r. exact Hin. }
  assert (Hget : get_function_descriptor (map warmed pre ++ (n, fd) :: post) n
                 = Ok fd).
  { unfold get_function_descriptor. rewrite getitem_app_fresh by assumption.
    cbn [getitem]. now rewrite String.eqb_refl. }
  rewrite (@on_descriptor_get _ cs n fd Hget).
  rewrite (@on_descriptor_spec _ get_args_json_schema _ cs n fd Hget).
  rewrite He. split; reflexivity.
Qed.

End CommandLine.

Lemma exec_validates_with_last_registration_witness :
  (fst (exec sample_validate sample_run sample_json_load "ping" (Some "bad.json")
          (World ([("ping", init_descriptor ping "" false true)]
                  ++ [("add", init_descriptor add "" true false)]) []))
   = Raise (ArgumentTypeError "is not of type 'number'"))
  /\ calls (snd (exec sample_validate sample_run sample_json_load
                   "add" (Some "bad.json")
                   (World ([("add", init_descriptor add "" true false)]
                           ++ [("ping", init_descriptor ping "" true true)]) [])))
     = [] ++ [Call add (Some [("x", VStr "2"); ("y", VInt 3)])].
Proof.
  split.
  - edestruct (@exec_validates_with_last_registration
                 sample_validate sample_run sample_json_load
                 [("ping", init_descriptor ping "" false true)]
                 "add" (init_descriptor add "" true false) [] "ping"
                 (init_descriptor ping "" false true) "bad.json"
                 (VDict [("x", VStr "2"); ("y", VInt 3)]))
      as [Hreject _].
    + repeat constructor; simpl; intuition discriminate.
    + intros n fd [H|[H|[]]]; inversion H; subst; eexists; reflexivity.
    + reflexivity.
    + reflexivity.
    + exact (proj1 (Hreject eq_refl _ eq_refl)).
  - edestruct (@exec_validates_with_last_registration
                 sample_validate sample_run sample_json_load
                 [("add", init_descriptor add "" true false)]
                 "ping" (init_descriptor ping "" true true) [] "add"
                 (init_descriptor add "" true false) "bad.json"
                 (VDict [("x", VStr "2"); ("y", VInt 3)]))
      as [_ Haccept].
    + repeat constructor; simpl; intuition discriminate.
    + intros n fd [H|[H|[]]]; inversion H; subst; eexists; reflexivity.
    + reflexivity.
    + reflexivity.
    + exact (proj2 (Haccept (or_intror eq_refl) _ eq_refl)).
Defined.

Lemma exec_without_payload_witness :
  (exists msg,
     fst (exec sample_validate sample_run sample_json_load "add" None
            (World (add_then_ping true) []))
     = Raise (ArgumentError msg))
  /\ calls (snd (exec sample_validate sample_run sample_json_load "ping" None
                   (World (add_then_ping true) [])))
     = [] ++ [Call ping None].
Proof.
  assert (Hnd : NoDup (keys (add_then_ping true)))
    by (repeat constructor; simpl; intuition discriminate).
  assert (Hall : forall n fd, In (n, fd) (add_then_ping true) ->
                   exists b', fst (has_args fd) = Ok b').
  { intros n fd [H|[H|[]]]; inversion H; subst; eexists; reflexivity. }
  split.
  - edestruct (@exec_without_payload sample_validate sample_run
                 sample_json_load (add_then_ping true) [] "add"
                 (init_descriptor add "" true false) true Hnd Hall)
      as [Htrue _]; [reflexivity | reflexivity |].
    exact (proj1 (Htrue eq_refl)).
  - edestruct (@exec_without_payload sample_validate sample_run
                 sample_json_load (add_then_ping true) [] "ping"
                 (init_descriptor ping "" true true) false Hnd Hall)
      as [_ Hfalse]; [reflexivity | reflexivity |].
    exact (proj2 (Hfalse eq_refl)).
Defined.

Lemma exec_refused_command_witness :
  (exists msg,
     fst (exec sample_validate sample_run sample_json_load "scale" None
            (World (add_then_ping true) []))
     = Raise (ArgumentError msg))
  /\ fst (exec sample_validate sample_run sample_json_load "add"
            (Some "no such file") (World (add_then_ping true) []))
     = Raise (ArgumentTypeError "Not valid json or a not valid json file").
Proof.
  assert (Hnd : NoDup (keys (add_then_ping true)))
    by (repeat constructor; simpl; intuition discriminate).
  assert (Hall : forall n fd, In (n, fd) (add_then_ping true) ->
                   exists b, fst (has_args fd) = Ok b).
  { intros n fd [H|[H|[]]]; inversion H; subst; eexists; reflexivity. }
  split.
  - apply (proj1 (@exec_refused_command sample_validate sample_run
                    sample_json_load (add_then_ping true) [] "scale" None
                    Hnd Hall)).
    simpl. intuition discriminate.
  - apply (proj2 (@exec_refused_command sample_validate sample_run
                    sample_json_load (add_then_ping true) [] "add"
                    (Some "no such file") Hnd Hall) "no such file").
    + simpl. auto.
    + reflexivity.
    + reflexivity.
Defined.

Lemma exec_fails_on_underivable_schema_witness :
  fst (exec sample_validate sample_run sample_json_load "ping" None
         (World ([("ping", init_descriptor ping "" true true)]
                 ++ ("raw",
                     init_descriptor
                       (Callable "raw"
                          [("data", mk_parameter (TOther "bytes") None)]
                          (TPrim Pstr))
                       "" true true)
                    :: [("add", init_descriptor add "" true false)]) []))
  = Raise unsupported.
Proof.
  apply (@exec_fails_on_underivable_schema sample_validate sample_run
           sample_json_load [("ping", init_descriptor ping "" true true)]
           [("add", init_descriptor add "" true false)] "raw").
  - repeat constructor; simpl; intuition discriminate.
  - intros n fd [H|[]]; inversion H; subst; eexists; reflexivity.
  - reflexivity.
Defined.

(** ** The web end point *)

Section WebFacts.

Variable jsonschema_validate : value -> schema -> result unit.
Variable run : callable -> option dict -> result value.
Variable json_load : string -> option value.

(** X20. A dispatch calls at most one registered function, the one
    registered under the requested name, and its outcome is then the
    outcome of that call: this holds for the web end point on any
    registry, and for the command line on a registry with distinct names
    whose functions all have an arguments schema. *)
Theorem dispatch_calls_at_most_once :
  (forall w name json_args,
     let out := flask_end_point jsonschema_validate run name json_args w in
     calls (snd out) = calls w
     \/ exists self kwargs,
          get_function_descriptor (shell w) name = Ok self
          /\ fst out = run (function self) kwargs
          /\ calls (snd out) = calls w ++ [Call (function self) kwargs])
  /\ (forall (sh : Shell) cs name text,
        NoDup (keys sh) ->
        (forall n fd, In (n, fd) sh -> exists b, fst (has_args fd) = Ok b) ->
        let out :=
          exec jsonschema_validate run json_load name text (World sh cs) in
        calls (snd out) = cs
        \/ exists self kwargs,
             get_function_descriptor sh name = Ok self
             /\ fst out = run (function self) kwargs
             /\ calls (snd out) = cs ++ [Call (function self) kwargs]).
Proof.
  split.
  - intros [sh cs] name json_args out. subst out. cbn [shell calls].
    unfold flask_end_point, mbind.
    destruct (get_function_descriptor sh name) as [self|e] eqn:Hget.
    2:{ left. unfold on_descriptor at 1. cbn [shell]. now rewrite Hget. }
    rewrite (@on_descriptor_get sh cs name self Hget).
    assert (Hstep : forall sh',
              get_function_descriptor sh' name = Ok self \/
              (exists self', get_function_descriptor sh' name = Ok self') ->
              True) by auto.
    clear Hstep.
    assert (Hdispatch : forall sh' self',
              get_function_descriptor sh' name = Ok self' ->
              let out' :=
                match on_descriptor name has_args (World sh' cs) with
                | (Ok b, w') =>
                    (if b then
                       (kwargs <- lift (kwargs_of json_args) ;;
                        invoke run (function self) (Some kwargs))%st
                     else invoke run (function self) None) w'
                | (Raise e, w') => (Raise e, w')
                end in
              calls (snd out') = cs
              \/ exists kwargs,
                   fst out' = run (function self) kwargs
                   /\ calls (snd out') = cs ++ [Call (function self) kwargs]).
    { intros sh' self' Hget' out'. subst out'.
      rewrite (@on_descriptor_spec _ has_args sh' cs name self' Hget').
      destruct (fst (has_args self')) as [[|]|e]; cbn [fst snd].
      - unfold mbind, lift.
        destruct (kwargs_of json_args) as [kwargs|e]; [right | left];
          [eexists; split|]; reflexivity.
      - right. eexists. split; reflexivity.
      - now left. }
    destruct (validate_schema self).
    + rewrite (@on_descriptor_spec _ get_args_json_schema sh cs name self Hget).
      destruct (fst (get_args_json_schema self)) as [s|e]; [|now left].
      unfold lift at 1.
      destruct (jsonschema_validate json_args s) as [u|e]; [|now left].
      destruct (Hdispatch _ _ (get_after_set sh name
                                 (snd (get_args_json_schema self))))
        as [H|[kwargs H]]; [now left | right; eauto].
    + unfold mret at 1.
      destruct (Hdispatch _ _ Hget) as [H|[kwargs H]]; [now left | right; eauto].
  - intros sh cs name text Hnd Hall out. subst out.
    rewrite (@exec_spec jsonschema_validate run json_load _ cs name text Hnd Hall).
    destruct (parse_args _ _ _ _ name text) as [function_args|e]; [|now left].
    destruct (get_function_descriptor sh name) as [self|e]; [|now left].
    destruct function_args; cbn [kwargs_of];
      try (now left); right; do 2 eexists; repeat split.
Qed.

(** X21. On the web path a payload that is not an object cannot be
    expanded into named arguments: for a function whose [has_args()] is
    true, once validation is off or has passed, the request ends in a
    [TypeError] and nothing is called. *)
Theorem flask_end_point_needs_mapping w name self s json_args :
  get_function_descriptor (shell w) name = Ok self ->
  fst (get_args_json_schema self) = Ok s ->
  (validate_schema self = true -> jsonschema_validate json_args s = Ok tt) ->
  fst (has_args self) = Ok true ->
  (forall d, json_args <> VDict d) ->
  (exists msg,
     fst (flask_end_point jsonschema_validate run name json_args w)
     = Raise (TypeError msg))
  /\ calls (snd (flask_end_point jsonschema_validate run name json_args w))
     = calls w.
Proof.
  destruct w as [sh cs]. cbn [shell calls]. intros Hget Hs Hval Hb Hpayload.
  destruct (has_args_ok _ Hb) as (s' & self1 & Hs' & Hr).
  rewrite Hs' in Hs. cbn [fst] in Hs. injection Hs as ->.
  destruct (get_args_json_schema_cached _ Hs') as (Hcached & _ & _).
  assert (Hk : exists msg, kwargs_of json_args = Raise (TypeError msg)).
  { destruct json_args; try (eexists; reflexivity).
    exfalso. eapply Hpayload. reflexivity. }
  destruct Hk as [msg Hk].
  assert (Hout : flask_end_point jsonschema_validate run name json_args
                   (World sh cs)
                 = (Raise (TypeError msg), World (setitem sh name self1) cs)).
  { unfold flask_end_point, mbind.
    rewrite (@on_descriptor_get sh cs name self Hget).
    destruct (validate_schema self) eqn:Hv.
    - rewrite (@on_descriptor_spec _ get_args_json_schema sh cs name self Hget).
      rewrite Hs'. cbn [fst snd]. unfold lift at 1. rewrite (Hval eq_refl).
      rewrite (@on_descriptor_spec _ has_args _ cs name self1
                 (get_after_set _ _ _)).
      rewrite (has_args_spec _ Hcached), Hr. cbn [fst snd].
      unfold lift. rewrite Hk, setitem_setitem_same. reflexivity.
    - unfold mret at 1.
      rewrite (@on_descriptor_spec _ has_args sh cs name self Hget).
      rewrite (has_args_spec _ Hs'), Hr. cbn [fst snd].
      unfold lift. rewrite Hk. reflexivity. }
  rewrite Hout. split; [eexists|]; reflexivity.
Qed.

End WebFacts.

Lemma dispatch_calls_at_most_once_witness :
  calls (snd (exec sample_validate sample_run sample_json_load "add"
                (Some "bad.json") (World (add_then_ping true) [])))
  = []
  \/ exists self kwargs,
       get_function_descriptor (add_then_ping true) "add" = Ok self
       /\ fst (exec sample_validate sample_run sample_json_load "add"
                 (Some "bad.json") (World (add_then_ping true) []))
          = sample_run (function self) kwargs
       /\ calls (snd (exec sample_validate sample_run sample_json_load "add"
                        (Some "bad.json") (World (add_then_ping true) [])))
          = [] ++ [Call (function self) kwargs].
Proof.
  apply (proj2 (dispatch_calls_at_most_once sample_validate sample_run
                  sample_json_load) (add_then_ping true) [] "add"
           (Some "bad.json")).
  - repeat constructor; simpl; intuition discriminate.
  - intros n fd [H|[H|[]]]; inversion H; subst; eexists; reflexivity.
Defined.

Lemma flask_end_point_needs_mapping_witness :
  (exists msg,
     fst (flask_end_point sample_validate sample_run "add" VNone
            (World (snd (register "add" add "" false false [])) []))
     = Raise (TypeError msg))
  /\ calls (snd (flask_end_point sample_validate sample_run "add" VNone
                   (World (snd (register "add" add "" false false [])) [])))
     = [].
Proof.
  apply (@flask_end_point_needs_mapping sample_validate sample_run
           (World (snd (register "add" add "" false false [])) [])
           "add" (init_descriptor add "" false false) add_schema VNone).
  - reflexivity.
  - reflexivity.
  - discriminate.
  - reflexivity.
  - discriminate.
Defined.

(** ** The form of the call *)

Lemma existsb_eqb_in name (l : list string) :
  In name l -> existsb (String.eqb name) l = true.
Proof.
  induction l as [|x l IH]; simpl; [tauto|].
  intros [->|Hin]; [now rewrite String.eqb_refl|].
  rewrite IH by assumption. apply orb_true_r.
Qed.

(** C7, amended. On the web path, for a request to the route of a
    function, once validation is off or has passed: the call is made
    without arguments when [has_args()] is false, the payload being
    ignored, and with the fields of an object payload as named arguments
    when it is true.  On the command line, in a registry with distinct
    names whose functions all have an arguments schema, the payload
    decides instead.  Without payload the function is called without
    arguments when [has_args()] is false, and the parser refuses the
    command, nothing being called, when it is true.  A payload that is
    valid JSON and that the check of the parser lets through gives a call
    with its fields as named arguments when it is an object, also when
    [has_args()] is false, and a call without arguments when it is
    [null]. *)
Theorem dispatch_call_form
    (jsonschema_validate : value -> schema -> result unit)
    (run : callable -> option dict -> result value)
    (json_load : string -> option value) :
  (forall w name self s b json_args,
     In name (get_non_command_line_function_names (shell w)) ->
     get_function_descriptor (shell w) name = Ok self ->
     fst (get_args_json_schema self) = Ok s ->
     (validate_schema self = true -> jsonschema_validate json_args s = Ok tt) ->
     fst (has_args self) = Ok b ->
     let out := web_request jsonschema_validate run name json_args w in
     (b = false ->
        fst out = run (function self) None
        /\ calls (snd out) = calls w ++ [Call (function self) None])
     /\ (b = true -> forall d, json_args = VDict d ->
           fst out = run (function self) (Some d)
           /\ calls (snd out) = calls w ++ [Call (function self) (Some d)]))
  /\ (forall (sh0 : Shell) ln lastfd cs name self b,
        NoDup (keys (sh0 ++ [(ln, lastfd)])) ->
        (forall n fd, In (n, fd) (sh0 ++ [(ln, lastfd)]) ->
           exists b', fst (has_args fd) = Ok b') ->
        get_function_descriptor (sh0 ++ [(ln, lastfd)]) name = Ok self ->
        fst (has_args self) = Ok b ->
        let w := World (sh0 ++ [(ln, lastfd)]) cs in
        let bare := exec jsonschema_validate run json_load name None w in
        (b = false ->
           fst bare = run (function self) None
           /\ calls (snd bare) = cs ++ [Call (function self) None])
        /\ (b = true ->
              (exists msg, fst bare = Raise (ArgumentError msg))
              /\ calls (snd bare) = cs)
        /\ (forall text v,
              json_load text = Some v ->
              validate_schema lastfd = false
              \/ jsonschema_validate v (args_schema_of lastfd) = Ok tt ->
              let out :=
                exec jsonschema_validate run json_load name (Some text) w in
              (v = VNone ->
                 fst out = run (function self) None
                 /\ calls (snd out) = cs ++ [Call (function self) None])
              /\ (forall d, v = VDict d ->
                    fst out = run (function self) (Some d)
                    /\ calls (snd out)
                       = cs ++ [Call (function self) (Some d)]))).
Proof.
  split.
  - intros w name self s b json_args Hroute Hget Hs Hval Hb out. subst out.
    unfold web_request. rewrite (existsb_eqb_in _ _ Hroute).
    exact (@flask_end_point_call_form jsonschema_validate run w name self s b
             json_args Hget Hs Hval Hb).
  - intros sh0 ln lastfd cs name self b Hnd Hall Hget Hb w bare.
    subst w bare. split; [|split].
    + intros ->.
      rewrite (@exec_spec jsonschema_validate run json_load _ cs name None
                 Hnd Hall).
      unfold parse_args. rewrite (parser_of_registered _ _ Hget).
      unfold takes_positional. rewrite Hb, Hget. split; reflexivity.
    + intros ->.
      rewrite (@exec_spec jsonschema_validate run json_load _ cs name None
                 Hnd Hall).
      unfold parse_args. rewrite (parser_of_registered _ _ Hget).
      unfold takes_positional. rewrite Hb. split; [eexists|]; reflexivity.
    + intros text v Hload Hcheck out. subst out.
      rewrite (@exec_spec jsonschema_validate run json_load _ cs name
                 (Some text) Hnd Hall).
      unfold parse_args. rewrite (parser_of_registered _ _ Hget).
      unfold json_or_json_file. rewrite Hload, closure_cells_last, Hget.
      assert (Hpass :
        (if validate_schema lastfd
         then match jsonschema_validate v (args_schema_of lastfd) with
              | Ok _ => Ok v
              | Raise e => Raise (ArgumentTypeError (message e))
              end
         else Ok v) = Ok v).
      { destruct (validate_schema lastfd); [|reflexivity].
        destruct Hcheck as [Hcheck|Hcheck]; [discriminate|].
        now rewrite Hcheck. }
      rewrite Hpass. split.
      * intros ->. split; reflexivity.
      * intros d ->. split; reflexivity.
Qed.

Lemma dispatch_call_form_witness :
  calls (snd (web_request sample_validate sample_run "scale"
                (VDict [("x", VInt 5)]) (World scale_on_web [])))
  = [] ++ [Call scale None]
  /\ calls (snd (web_request sample_validate sample_run "add"
                   (VDict [("x", VInt 1); ("y", VInt 2)])
                   (World (add_then_ping true) [])))
     = [] ++ [Call add (Some [("x", VInt 1); ("y", VInt 2)])]
  /\ calls (snd (exec sample_validate sample_run sample_json_load "ping" None
                   (World ([("add", init_descriptor add "" true false)]
                           ++ [("ping", init_descriptor ping "" true true)])
                      [])))
     = [] ++ [Call ping None]
  /\ calls (snd (exec sample_validate sample_run sample_json_load "add" None
                   (World ([("add", init_descriptor add "" true false)]
                           ++ [("ping", init_descriptor ping "" true true)])
                      [])))
     = []
  /\ calls (snd (exec sample_validate sample_run sample_json_load "scale"
                   (Some "five.json")
                   (World ([("add", init_descriptor add "" true false)]
                           ++ [("scale", init_descriptor scale "" false true)])
                      [])))
     = [] ++ [Call scale (Some [("x", VInt 5)])].
Proof.
  destruct (dispatch_call_form sample_validate sample_run sample_json_load)
    as [Hweb Hcli].
  assert (Hnd1 : NoDup (keys ([("add", init_descriptor add "" true false)]
                              ++ [("ping", init_descriptor ping "" true true)])))
    by (repeat constructor; simpl; intuition discriminate).
  assert (Hall1 : forall n fd,
            In (n, fd) ([("add", init_descriptor add "" true false)]
                        ++ [("ping", init_descriptor ping "" true true)]) ->
            exists b', fst (has_args fd) = Ok b').
  { intros n fd [H|[H|[]]]; inversion H; subst; eexists; reflexivity. }
  assert (Hnd2 : NoDup (keys ([("add", init_descriptor add "" true false)]
                              ++ [("scale", init_descriptor scale "" false true)])))
    by (repeat constructor; simpl; intuition discriminate).
  assert (Hall2 : forall n fd,
            In (n, fd) ([("add", init_descriptor add "" true false)]
                        ++ [("scale", init_descriptor scale "" false true)]) ->
            exists b', fst (has_args fd) = Ok b').
  { intros n fd [H|[H|[]]]; inversion H; subst; eexists; reflexivity. }
  split; [|split; [|split; [|split]]].
  - refine (proj2 (proj1 (Hweb (World scale_on_web []) "scale"
                            (init_descriptor scale "" false false)
                            [("type", VStr "object");
                             ("properties",
                              VDict [("x", VDict [("type", VStr "number");
                                                  ("default", VInt 0)])]);
                             ("required", VList [])]
                            false (VDict [("x", VInt 5)]) _ eq_refl eq_refl _
                            eq_refl)
                     eq_refl)).
    + simpl. auto.
    + discriminate.
  - refine (proj2 (proj2 (Hweb (World (add_then_ping true) []) "add"
                            (init_descriptor add "" true false) add_schema
                            true (VDict [("x", VInt 1); ("y", VInt 2)])
                            _ eq_refl eq_refl _ eq_refl)
                     eq_refl _ eq_refl)).
    + simpl. auto.
    + reflexivity.
  - exact (proj2 (proj1 (Hcli [("add", init_descriptor add "" true false)]
                           "ping" (init_descriptor ping "" true true) []
                           "ping" (init_descriptor ping "" true true) false
                           Hnd1 Hall1 eq_refl eq_refl) eq_refl)).
  - exact (proj2 (proj1 (proj2
                    (Hcli [("add", init_descriptor add "" true false)]
                       "ping" (init_descriptor ping "" true true) []
                       "add" (init_descriptor add "" true false) true
                       Hnd1 Hall1 eq_refl eq_refl)) eq_refl)).
  - exact (proj2 (proj2 (proj2 (proj2
                    (Hcli [("add", init_descriptor add "" true false)]
                       "scale" (init_descriptor scale "" false true) []
                       "scale" (init_descriptor scale "" false true) false
                       Hnd2 Hall2 eq_refl eq_refl))
                    "five.json" (VDict [("x", VInt 5)]) eq_refl
                    (or_introl eq_refl)) _ eq_refl)).
Defined.
